(** * prvt: key orchestration (cmd/zz-keys.go) and the sandboxed unlock handler

    A shallow embedding of the functions of [cmd/zz-keys.go] that create a
    repository's info file, add unlock factors, unlock the master key and
    migrate the info file's format, and of the JavaScript handler that serves
    [/api/repo/unlock] in Wasm mode.

    Go's [[]byte] is a list of bytes ([nil] and the empty slice are both the
    empty list: the code only ever takes their [len]), Go's [string] is a
    [string], and an [error] is [None] for [nil] or the message it carries.
    The functions that take an [*infofile.InfoFile] and mutate it are state
    transformers over the pointed-to object and the outside world (the
    interactive prompt and the random source). *)

From Stdlib Require Import ZArith NArith List Bool Lia.
From Stdlib.Strings Require Import String Ascii Byte.
From Stdlib Require PrimFloat.
Import ListNotations.

Local Open Scope string_scope.
Local Open Scope Z_scope.

Set Warnings "-register-all".

(** ** Go values *)

Definition bytes := list byte.

(** Go's [error]: [nil], or an error carrying a message. *)
Definition error := option string.

(** A Go function returning [(value, err)]: either the value with a [nil]
    error, or an error. *)
Inductive result (A : Type) : Type :=
| Ok (a : A)
| Err (e : string).
Arguments Ok {A} a.
Arguments Err {A} e.

(** Go's builtin [len], on slices and on strings (the number of bytes). *)
Definition len {A : Type} (l : list A) : Z := Z.of_nat (List.length l).
Definition lenString (s : string) : Z := Z.of_nat (String.length s).

Fixpoint bytes_eqb (a b : bytes) : bool :=
  match a, b with
  | [], [] => true
  | x :: a', y :: b' => Byte.eqb x y && bytes_eqb a' b'
  | _, _ => false
  end.

(** [subtle.ConstantTimeCompare]: 1 when the two slices have the same length
    and contents, 0 otherwise. *)
Definition ConstantTimeCompare (x y : bytes) : Z :=
  if bytes_eqb x y then 1 else 0.

(** ** [strings.ToLower] *)

Definition isUpperASCII (c : ascii) : bool :=
  let n := N_of_ascii c in ((65 <=? n) && (n <=? 90))%N.

(** The ASCII fast path of [strings.ToLower]: ['A'..'Z'] are moved to
    ['a'..'z'], every other byte is kept. *)
Definition lowerASCII (c : ascii) : ascii :=
  if isUpperASCII c then ascii_of_N (N_of_ascii c + 32) else c.

Fixpoint mapString (f : ascii -> ascii) (s : string) : string :=
  match s with
  | EmptyString => EmptyString
  | String c s' => String (f c) (mapString f s')
  end.

(** Every byte is below [utf8.RuneSelf] (0x80). *)
Fixpoint isASCII (s : string) : bool :=
  match s with
  | EmptyString => true
  | String c s' => (N_of_ascii c <? 128)%N && isASCII s'
  end.

(** Two identifiers are equal up to ASCII case when they agree once their
    ASCII capitals are lowered. *)
Definition eqASCIICase (s t : string) : Prop :=
  mapString lowerASCII s = mapString lowerASCII t.

(** ** The info file *)

Module infofile.

Module Key.
(** Modelled from the spec: the declaration of [infofile.InfoFileKey] is not
    among the sources. An entry of [info.Keys] carries the wrapped master key
    and either the salt and confirmation hash of a passphrase or the id of a
    GPG key; the source reads [k.GPGKey] on every entry, so the two kinds of
    entry share one struct and a passphrase entry has an empty [GPGKey]. *)
Record InfoFileKey : Type := {
  MasterKey : bytes;
  ConfirmationHash : bytes;
  Salt : bytes;
  GPGKey : string
}.
End Key.
Export Key (InfoFileKey).

(** Modelled from the spec: the declaration of [infofile.InfoFile] is not among
    the sources. The fields are the ones [cmd/zz-keys.go] reads and writes:
    the format version, the legacy (version 1) salt and confirmation hash, and
    the list of keys. *)
Record InfoFile : Type := {
  Version : Z;
  Salt : bytes;
  ConfirmationHash : bytes;
  Keys : list InfoFileKey
}.

Definition setVersion (i : InfoFile) (v : Z) : InfoFile :=
  {| Version := v; Salt := Salt i; ConfirmationHash := ConfirmationHash i;
     Keys := Keys i |}.

Definition setKeys (i : InfoFile) (ks : list InfoFileKey) : InfoFile :=
  {| Version := Version i; Salt := Salt i;
     ConfirmationHash := ConfirmationHash i; Keys := ks |}.

(** [info.Salt = nil; info.ConfirmationHash = nil] *)
Definition clearLegacy (i : InfoFile) : InfoFile :=
  {| Version := Version i; Salt := []; ConfirmationHash := [];
     Keys := Keys i |}.

(** The current format version. *)
Definition currentVersion : Z := 3.

(** Modelled from the spec: [infofile.New] is not among the sources. A fresh
    info file has the current format version and an empty key list. *)
Definition New : result InfoFile :=
  Ok {| Version := currentVersion; Salt := []; ConfirmationHash := [];
        Keys := [] |}.

Definition passphraseEntry (salt confirmationHash wrappedKey : bytes)
  : InfoFileKey :=
  {| Key.MasterKey := wrappedKey; Key.ConfirmationHash := confirmationHash;
     Key.Salt := salt; Key.GPGKey := "" |}.

Definition gpgEntry (gpgKey : string) (wrappedKey : bytes) : InfoFileKey :=
  {| Key.MasterKey := wrappedKey; Key.ConfirmationHash := [];
     Key.Salt := []; Key.GPGKey := gpgKey |}.

End infofile.
Import infofile.

(** ** The outside world *)

(** What the terminal delivers to a prompt: a line the user submits, or an
    interruption of the prompt (with the error the prompt then returns). *)
Inductive Input : Type :=
| Line (s : string)
| Interrupt (e : string).

(** The state outside the info file: what the user will type at the prompts to
    come, how many prompts have been shown, and what the random source will
    deliver to the next calls of [crypto.NewSalt] and [crypto.NewKey]. *)
Record World : Type := {
  inputs : list Input;
  prompted : nat;
  salts : list (result bytes);
  newKeys : list (result bytes)
}.

(** The [Validate] closure of the prompt. *)
Definition Validate (input : string) : error :=
  if lenString input <? 1 then Some "Passphrase must not be empty" else None.

(** [prompt.Run]: a submitted line that does not validate is refused and the
    prompt stays open; the prompt returns the first line that validates, or the
    error of an interruption (["^C"] for an interrupt; the end of the input
    gives ["^D"]). *)
Fixpoint Run (ins : list Input) : result string * list Input :=
  match ins with
  | [] => (Err "^D", [])
  | Interrupt e :: rest => (Err e, rest)
  | Line s :: rest =>
      match Validate s with
      | None => (Ok s, rest)
      | Some _ => Run rest
      end
  end.

(** [PromptPassphrase] prompts the user for a passphrase. *)
Definition PromptPassphrase (w : World) : result string * World :=
  let (r, rest) := Run (inputs w) in
  (r, {| inputs := rest; prompted := S (prompted w); salts := salts w;
         newKeys := newKeys w |}).

(** Modelled from the spec: [crypto.NewSalt] is not among the sources; it is
    the provider's [generate_salt], which draws from the random source and may
    fail. *)
Definition NewSalt (w : World) : result bytes * World :=
  match salts w with
  | [] => (Err "random source exhausted", w)
  | r :: rest =>
      (r, {| inputs := inputs w; prompted := prompted w; salts := rest;
             newKeys := newKeys w |})
  end.

(** Modelled from the spec: [crypto.NewKey] is not among the sources; it is
    the provider's [generate_master_key]. *)
Definition NewKey (w : World) : result bytes * World :=
  match newKeys w with
  | [] => (Err "random source exhausted", w)
  | r :: rest =>
      (r, {| inputs := inputs w; prompted := prompted w; salts := salts w;
             newKeys := rest |})
  end.

(** ** The state monad of the orchestrator *)

(** An operation holds a pointer to one info file and acts on the world. *)
Record State : Type := { info : InfoFile; world : World }.

Definition M (A : Type) : Type := State -> A * State.

Definition ret {A : Type} (a : A) : M A := fun s => (a, s).

Definition bind {A B : Type} (m : M A) (k : A -> M B) : M B :=
  fun s => let (a, s') := m s in k a s'.

Notation "x <- m ;; k" := (bind m (fun x => k))
  (at level 61, m at next level, right associativity).

Definition getInfo : M InfoFile := fun s => (info s, s).

Definition putInfo (i : InfoFile) : M unit :=
  fun s => (tt, {| info := i; world := world s |}).

(** Runs an action of the outside world. *)
Definition liftWorld {A : Type} (f : World -> A * World) : M A :=
  fun s => let (a, w) := f (world s) in (a, {| info := info s; world := w |}).

(** ** The collaborators of the orchestrator *)

(** Modelled from the spec: the packages [crypto] and [keys], the methods of
    [infofile.InfoFile] and Go's Unicode tables are not among the sources.
    [KeyFromPassphrase] is the provider's [derive_key], [WrapKey] and
    [UnwrapKey] its [wrap] and [unwrap], [GPGEncrypt] and [GPGDecrypt] its
    [asymmetric_wrap] and [asymmetric_unwrap]; each can fail. The two
    [accepts] functions are the checks under which the info file takes a new
    entry ([None] when it does). [mapUnicodeToLower] is
    [strings.Map(unicode.ToLower, s)], which [strings.ToLower] runs on a string
    that is not pure ASCII. [passphraseKeyId] names a passphrase entry. *)
Record Provider : Type := {
  KeyFromPassphrase : string -> bytes -> result (bytes * bytes);
  WrapKey : bytes -> bytes -> result bytes;
  UnwrapKey : bytes -> bytes -> result bytes;
  GPGEncrypt : bytes -> string -> result bytes;
  GPGDecrypt : bytes -> result bytes;
  acceptsPassphrase : InfoFile -> bytes -> bytes -> bytes -> error;
  acceptsGPGWrappedKey : InfoFile -> string -> bytes -> error;
  mapUnicodeToLower : string -> string;
  passphraseKeyId : InfoFileKey -> string
}.

(** The laws of the provider that the properties below rely on. Unwrapping
    with the key that wrapped returns the payload (the round trip of the
    provider). *)
Definition wrapRoundTrip (X : Provider) : Prop :=
  forall wrappingKey payload blob,
    WrapKey X wrappingKey payload = Ok blob ->
    UnwrapKey X wrappingKey blob = Ok payload.

(** Lowering by the Unicode tables does not tell apart two strings that differ
    in ASCII case only. *)
Definition lowerRespectsASCIICase (X : Provider) : Prop :=
  forall s t, eqASCIICase s t -> mapUnicodeToLower X s = mapUnicodeToLower X t.

(** The messages of the errors, by kind. *)
Definition DuplicateFactor : string := "Key already added".
Definition UnsupportedVersion : string := "Unsupported repository version".
Definition InvalidCredentials : string := "Cannot unlock the repository".

Section Orchestrator.

Variable X : Provider.

(** [strings.ToLower]: a pure ASCII string is lowered byte by byte, any other
    string rune by rune with the Unicode tables. *)
Definition ToLower (s : string) : string :=
  if isASCII s then mapString lowerASCII s else mapUnicodeToLower X s.

(** Modelled from the spec: [info.AddPassphrase] is not among the sources. It
    appends a passphrase entry to [info.Keys], or returns an error and leaves
    the info file as it is. *)
Definition AddPassphrase (salt confirmationHash wrappedKey : bytes) : M error :=
  i <- getInfo ;;
  match acceptsPassphrase X i salt confirmationHash wrappedKey with
  | Some e => ret (Some e)
  | None =>
      _ <- putInfo
             (setKeys i (Keys i ++ [passphraseEntry salt confirmationHash wrappedKey])) ;;
      ret None
  end.

(** Modelled from the spec: [info.AddGPGWrappedKey] is not among the sources.
    It appends an entry for the GPG key to [info.Keys], or returns an error and
    leaves the info file as it is. *)
Definition AddGPGWrappedKey (gpgKey : string) (wrappedKey : bytes) : M error :=
  i <- getInfo ;;
  match acceptsGPGWrappedKey X i gpgKey wrappedKey with
  | Some e => ret (Some e)
  | None =>
      _ <- putInfo (setKeys i (Keys i ++ [gpgEntry gpgKey wrappedKey])) ;;
      ret None
  end.

(** What the unlock functions return: [(masterKey, keyId, errMessage, err)]. *)
Definition Unlocked : Type := (bytes * string * string * error)%type.

(** One passphrase entry tried with a candidate passphrase: [None] when the
    confirmation hash does not match (the entry is skipped without an unwrap),
    otherwise the outcome of the unwrap. A failure of the derivation is fatal. *)
Definition tryPassphraseEntry (passphrase : string) (k : InfoFileKey)
  : option (result bytes) :=
  match KeyFromPassphrase X passphrase (Key.Salt k) with
  | Err e => Some (Err e)
  | Ok (wrappingKey, confirmationHash) =>
      if ConstantTimeCompare (Key.ConfirmationHash k) confirmationHash =? 1
      then Some (UnwrapKey X wrappingKey (Key.MasterKey k))
      else None
  end.

Fixpoint unlockWithPassphrase (passphrase : string) (ks : list InfoFileKey)
  : Unlocked :=
  match ks with
  | [] => ([], "", InvalidCredentials, Some "Invalid passphrase")
  | k :: rest =>
      if String.eqb (Key.GPGKey k) "" then
        match tryPassphraseEntry passphrase k with
        | None => unlockWithPassphrase passphrase rest
        | Some (Ok masterKey) => (masterKey, passphraseKeyId X k, "", None)
        | Some (Err e) => ([], "", "Error while unwrapping the master key", Some e)
        end
      else unlockWithPassphrase passphrase rest
  end.

(** Modelled from the spec: [keys.GetMasterKeyWithPassphrase] is not among the
    sources. Every passphrase entry is tried in list order: the wrapping key
    and hash are derived from the passphrase and the entry's salt, the hash is
    compared in constant time with the entry's, a mismatch skips the entry, a
    match unwraps and returns. When no entry matches the credentials are
    invalid. *)
Definition GetMasterKeyWithPassphrase (i : InfoFile) (passphrase : string)
  : Unlocked :=
  unlockWithPassphrase passphrase (Keys i).

(** One entry tried with the local asymmetric material: the master key when
    the entry is an asymmetric one and its wrapping can be reversed. *)
Definition tryGPGEntry (k : InfoFileKey) : option bytes :=
  if String.eqb (Key.GPGKey k) "" then None
  else
    match GPGDecrypt X (Key.MasterKey k) with
    | Ok masterKey => Some masterKey
    | Err _ => None
    end.

Fixpoint unlockWithGPG (ks : list InfoFileKey) : Unlocked :=
  match ks with
  | [] => ([], "", InvalidCredentials, Some "Invalid GPG key")
  | k :: rest =>
      match tryGPGEntry k with
      | Some masterKey => (masterKey, Key.GPGKey k, "", None)
      | None => unlockWithGPG rest
      end
  end.

(** Modelled from the spec: [keys.GetMasterKeyWithGPG] is not among the
    sources. Every asymmetric entry is tried in list order; the first one whose
    wrapping can be reversed wins and is returned with its recipient id. *)
Definition GetMasterKeyWithGPG (i : InfoFile) : Unlocked :=
  unlockWithGPG (Keys i).

(** *** [cmd/zz-keys.go] *)

(** Used by [AddKey] to add a new GPG key. *)
Definition addKeyGPG (masterKey : bytes) (gpgKey : string) : M (string * error) :=
  match GPGEncrypt X masterKey gpgKey with
  | Err e => ret ("Error encrypting the master key with GPG", Some e)
  | Ok wrappedKey =>
      err <- AddGPGWrappedKey gpgKey wrappedKey ;;
      match err with
      | Some e => ret ("Error adding the key", Some e)
      | None => ret ("", None)
      end
  end.

(** Used by [AddKey] to add a new passphrase. *)
Definition addKeyPassphrase (masterKey : bytes) : M (string * error) :=
  r <- liftWorld PromptPassphrase ;;
  match r with
  | Err e => ret ("Error getting passphrase", Some e)
  | Ok passphrase =>
      i <- getInfo ;;
      let '(_, _, _, testErr) := GetMasterKeyWithPassphrase i passphrase in
      match testErr with
      | None =>
          ret (DuplicateFactor,
               Some "This passphrase has already been added to the repository")
      | Some _ =>
          r <- liftWorld NewSalt ;;
          match r with
          | Err e => ret ("Error generating a new salt", Some e)
          | Ok salt =>
              match KeyFromPassphrase X passphrase salt with
              | Err e => ret ("Error deriving the wrapping key", Some e)
              | Ok (wrappingKey, confirmationHash) =>
                  match WrapKey X wrappingKey masterKey with
                  | Err e => ret ("Error wrapping the master key", Some e)
                  | Ok wrappedKey =>
                      err <- AddPassphrase salt confirmationHash wrappedKey ;;
                      match err with
                      | Some e => ret ("Error adding the key", Some e)
                      | None => ret ("", None)
                      end
                  end
              end
          end
      end
  end.

(** [AddKey] adds a key to an info file. If the GPG key is empty, it prompts
    for a passphrase. The loop over [info.Keys] returns at the first entry
    whose lowered GPG key is the lowered key id. *)
Definition AddKey (masterKey : bytes) (gpgKey : string) : M (string * error) :=
  if String.eqb gpgKey "" then addKeyPassphrase masterKey
  else
    let keyId := ToLower gpgKey in
    i <- getInfo ;;
    if existsb (fun k => String.eqb (ToLower (Key.GPGKey k)) keyId) (Keys i)
    then ret (DuplicateFactor,
              Some "This GPG key has already been added to the repository")
    else addKeyGPG masterKey gpgKey.

(** [NewInfoFile] generates a new info file with a brand-new master key,
    wrapped either with a passphrase-derived key, or with GPG. The function
    creates the info file it works on; it returns [(info, errMessage, err)],
    [info] being [None] for Go's [nil]. After [AddKey] the source sets [info]
    to [nil] when [err] is not [nil], and then returns [info, "", nil]. *)
Definition NewInfoFile (gpgKey : string) (w : World)
  : (option InfoFile * string * error) * World :=
  match infofile.New with
  | Err e => ((None, "Error creating info file", Some e), w)
  | Ok i0 =>
      let (r, w1) := NewKey w in
      match r with
      | Err e => ((None, "Error generating the master key", Some e), w1)
      | Ok masterKey =>
          let '((errMessage, err), s) :=
            AddKey masterKey gpgKey {| info := i0; world := w1 |} in
          let i := match err with
                   | Some _ => None
                   | None => Some (info s)
                   end in
          ((i, "", None), world s)
      end
  end.

(** Upgrades an info file from version 1 to 2. GPG keys are already in the
    [Keys] slice; the legacy passphrase is migrated. *)
Definition upgradeInfoFileV1 : M (string * error) :=
  i <- getInfo ;;
  if (len (Salt i) >? 0) && (len (ConfirmationHash i) >? 0) then
    r <- liftWorld PromptPassphrase ;;
    match r with
    | Err e => ret ("Error getting passphrase", Some e)
    | Ok passphrase =>
        match KeyFromPassphrase X passphrase (Salt i) with
        | Err _ => ret (InvalidCredentials, Some "Invalid passphrase")
        | Ok (masterKey, confirmationHash) =>
            if ConstantTimeCompare (ConfirmationHash i) confirmationHash =? 0
            then ret (InvalidCredentials, Some "Invalid passphrase")
            else
              r <- liftWorld NewSalt ;;
              match r with
              | Err e => ret ("Error generating a new salt", Some e)
              | Ok newSalt =>
                  match KeyFromPassphrase X passphrase newSalt with
                  | Err e => ret ("Error deriving the wrapping key", Some e)
                  | Ok (wrappingKey, newConfirmationHash) =>
                      match WrapKey X wrappingKey masterKey with
                      | Err e => ret ("Error wrapping the master key", Some e)
                      | Ok wrappedKey =>
                          err <- AddPassphrase newSalt newConfirmationHash wrappedKey ;;
                          match err with
                          | Some e => ret ("Error adding the key", Some e)
                          | None =>
                              i' <- getInfo ;;
                              _ <- putInfo (clearLegacy i') ;;
                              ret ("", None)
                          end
                      end
                  end
              end
        end
    end
  else ret ("", None).

(** The end of [UpgradeInfoFile]: [info.Version = 3; return "", nil]. *)
Definition updateVersion : M (string * error) :=
  i <- getInfo ;;
  _ <- putInfo (setVersion i 3) ;;
  ret ("", None).

(** [UpgradeInfoFile] upgrades an info file to the latest version. It can only
    upgrade info files of version 1 and 2. The upgrade from 2 to 3 has nothing
    to do but to update the version. *)
Definition UpgradeInfoFile : M (string * error) :=
  i <- getInfo ;;
  if negb (Version i =? 1) && negb (Version i =? 2) then
    ret (UnsupportedVersion,
         Some "This repository has already been upgraded or is using an unsupported version")
  else if Version i <? 2 then
    r <- upgradeInfoFileV1 ;;
    match r with
    | (errMessage, Some e) => ret (errMessage, Some e)
    | (_, None) => updateVersion
    end
  else updateVersion.

(** [GetMasterKey] gets the master key, either unwrapping it with GPG or with
    a passphrase. *)
Definition GetMasterKey : M Unlocked :=
  i <- getInfo ;;
  let '(masterKey, keyId, errMessage, err) := GetMasterKeyWithGPG i in
  match err with
  | None => ret (masterKey, keyId, errMessage, None)
  | Some _ =>
      r <- liftWorld PromptPassphrase ;;
      match r with
      | Err e => ret ([], "", "Error getting passphrase", Some e)
      | Ok passphrase => ret (GetMasterKeyWithPassphrase i passphrase)
      end
  end.

End Orchestrator.

(** The functions of the orchestrator are unfolded on demand only. *)
Arguments AddPassphrase : simpl never.
Arguments AddGPGWrappedKey : simpl never.
Arguments addKeyGPG : simpl never.
Arguments addKeyPassphrase : simpl never.
Arguments AddKey : simpl never.
Arguments upgradeInfoFileV1 : simpl never.
Arguments updateVersion : simpl never.
Arguments UpgradeInfoFile : simpl never.
Arguments GetMasterKey : simpl never.
Arguments PromptPassphrase : simpl never.
Arguments NewSalt : simpl never.
Arguments NewKey : simpl never.

(** ** A reference provider

    A provider simple enough to run the orchestrator on concrete inputs. The
    key derived from a passphrase and a salt is their concatenation and the
    confirmation hash the reversed salt followed by the passphrase; wrapping
    reverses the payload; the local GPG key ring holds the secret key of one
    recipient, and no public key for ["nobody"]. Its Unicode lowering lowers
    ASCII letters only: the identifiers of the samples are ASCII. *)

Definition bytesOfString (s : string) : bytes := list_byte_of_string s.

Definition refProvider : Provider := {|
  KeyFromPassphrase passphrase salt :=
    match salt with
    | [] => Err "empty salt"
    | _ => Ok ((bytesOfString passphrase ++ salt)%list,
               (rev salt ++ bytesOfString passphrase)%list)
    end;
  WrapKey _ payload := Ok (rev payload);
  UnwrapKey _ blob := Ok (rev blob);
  GPGEncrypt payload gpgKey :=
    if String.eqb gpgKey "nobody" then Err "no public key"
    else if String.eqb gpgKey "alice" then Ok (x01 :: payload)
    else Ok (x02 :: payload);
  GPGDecrypt blob :=
    match blob with
    | x01 :: payload => Ok payload
    | _ => Err "no secret key"
    end;
  acceptsPassphrase _ salt _ _ :=
    match salt with
    | [] => Some "empty salt"
    | _ => None
    end;
  acceptsGPGWrappedKey _ _ _ := None;
  mapUnicodeToLower := mapString lowerASCII;
  passphraseKeyId _ := "passphrase"
|}.

(** Sample states. The user submits an empty line, then ["hunter2"]; the
    random source holds one salt and one master key. *)
Definition sampleWorld : World :=
  {| inputs := [Line ""; Line "hunter2"]; prompted := 0;
     salts := [Ok [x0a; x0b]]; newKeys := [Ok [x11; x22; x33]] |}.

(** A world whose user interrupts the prompt. *)
Definition interruptedWorld : World :=
  {| inputs := [Interrupt "^C"]; prompted := 0;
     salts := [Ok [x0a; x0b]]; newKeys := [Ok [x11; x22; x33]] |}.

(** A version 1 info file: the legacy salt and the confirmation hash of
    ["hunter2"], and one GPG entry (of a key that is not in the key ring). *)
Definition legacyInfo : InfoFile :=
  {| Version := 1; Salt := [x01; x02];
     ConfirmationHash := [x02; x01; x68; x75; x6e; x74; x65; x72; x32];
     Keys := [gpgEntry "ABC" [x02; x05]] |}.

(** A version 1 info file without the legacy fields. *)
Definition gpgOnlyInfo : InfoFile :=
  {| Version := 1; Salt := []; ConfirmationHash := [];
     Keys := [gpgEntry "ABC" [x02; x05]] |}.

(** An info file of the current version with a passphrase entry for
    ["hunter2"] and a GPG entry for the key of the key ring. *)
Definition currentInfo : InfoFile :=
  {| Version := 3; Salt := []; ConfirmationHash := [];
     Keys := [passphraseEntry [x0a; x0b]
                [x0b; x0a; x68; x75; x6e; x74; x65; x72; x32]
                [x33; x22; x11];
              gpgEntry "alice" [x01; x11; x22; x33]] |}.

(** [legacyInfo] after its migration with ["hunter2"], and the world then. *)
Definition rotatedInfo : InfoFile :=
  {| Version := 3; Salt := []; ConfirmationHash := [];
     Keys := [gpgEntry "ABC" [x02; x05];
              passphraseEntry [x0a; x0b]
                [x0b; x0a; x68; x75; x6e; x74; x65; x72; x32]
                [x02; x01; x32; x72; x65; x74; x6e; x75; x68]] |}.

Definition rotatedWorld : World :=
  {| inputs := []; prompted := 1; salts := [];
     newKeys := [Ok [x11; x22; x33]] |}.

(** A world whose random source delivers the legacy salt of [legacyInfo]. *)
Definition repeatingWorld : World :=
  {| inputs := [Line "hunter2"]; prompted := 0;
     salts := [Ok [x01; x02]]; newKeys := [] |}.

(** * The unlock handler of the Wasm mode

    The default export of the handler for [/api/repo/unlock]: an async
    function from the client's request to a response. The values are the ones
    [req.json()] can produce. An exception (a rejected promise) is a [Throw]. *)

Module UnlockHandler.

Inductive JSValue : Type :=
| JUndefined
| JNull
| JBool (b : bool)
| JNumber (n : PrimFloat.float)
| JString (s : string)
| JArray (elements : list JSValue)
| JObject (properties : list (string * JSValue)).

(** How an evaluation completes: with a value, or by throwing. *)
Inductive completion (A : Type) : Type :=
| Normal (a : A)
| Throw (e : string).
Arguments Normal {A} a.
Arguments Throw {A} e.

(** [ToBoolean]: [undefined], [null], [false], [+0], [-0], [NaN] and the empty
    string are falsy, everything else is truthy. *)
Definition ToBoolean (v : JSValue) : bool :=
  match v with
  | JUndefined | JNull => false
  | JBool b => b
  | JNumber n => negb (PrimFloat.is_zero n || PrimFloat.is_nan n)
  | JString s => negb (String.eqb s "")
  | JArray _ | JObject _ => true
  end.

(** The own property [p] of an object; the properties are listed with the one
    that counts for a name first. *)
Fixpoint lookup (p : string) (properties : list (string * JSValue)) : option JSValue :=
  match properties with
  | [] => None
  | (q, v) :: rest => if String.eqb q p then Some v else lookup p rest
  end.

(** [v.p] for a value that is neither [undefined] nor [null], and a name [p]
    that no prototype defines ([type], [passphrase], [masterKey], [keyId]): the
    own property of an object, [undefined] otherwise. *)
Definition Get (v : JSValue) (p : string) : JSValue :=
  match v with
  | JObject properties =>
      match lookup p properties with
      | Some x => x
      | None => JUndefined
      end
  | _ => JUndefined
  end.

Definition hasOwn (p : string) (properties : list (string * JSValue)) : bool :=
  match lookup p properties with
  | Some _ => true
  | None => false
  end.

Section Runtime.

(** [Number::toString], the decimal rendering of a number. *)
Variable NumberToString : PrimFloat.float -> string.

(** [ToString]. An array is rendered by [Array.prototype.join]: its elements
    separated by commas, [undefined] and [null] as the empty string. A plain
    object is rendered by [Object.prototype.toString], unless it has an own
    property [toString], which coming from JSON is not callable: converting
    that object to a primitive throws a [TypeError]. *)
Fixpoint ToString (v : JSValue) : completion string :=
  match v with
  | JUndefined => Normal "undefined"
  | JNull => Normal "null"
  | JBool true => Normal "true"
  | JBool false => Normal "false"
  | JNumber n => Normal (NumberToString n)
  | JString s => Normal s
  | JObject properties =>
      if hasOwn "toString" properties then Throw "TypeError"
      else Normal "[object Object]"
  | JArray elements =>
      (fix join (l : list JSValue) : completion string :=
         match l with
         | [] => Normal ""
         | e :: rest =>
             let first :=
               match e with
               | JUndefined | JNull => Normal ""
               | _ => ToString e
               end in
             match first with
             | Throw x => Throw x
             | Normal s =>
                 match rest with
                 | [] => Normal s
                 | _ =>
                     match join rest with
                     | Throw x => Throw x
                     | Normal r => Normal (s ++ "," ++ r)
                     end
                 end
             end
         end) elements
  end.

(** [ToNumber('passphrase')]: the literal is not a numeric literal. *)
Definition ToNumber_passphrase : PrimFloat.float := PrimFloat.nan.

(** [v == 'passphrase'], the loose equality of a value with the handler's
    string literal: [undefined] and [null] equal no string, a boolean and a
    number are compared with the number the string converts to, a string is
    compared as a string, an object or array is first converted to a
    primitive. *)
Definition looselyEqualsPassphrase (v : JSValue) : completion bool :=
  match v with
  | JUndefined | JNull => Normal false
  | JBool b =>
      Normal (PrimFloat.eqb (if b then PrimFloat.one else PrimFloat.zero)
                ToNumber_passphrase)
  | JNumber n => Normal (PrimFloat.eqb n ToNumber_passphrase)
  | JString s => Normal (String.eqb s "passphrase")
  | JArray _ | JObject _ =>
      match ToString v with
      | Throw x => Throw x
      | Normal s => Normal (String.eqb s "passphrase")
      end
  end.

(** [!data || data.type != 'passphrase' || !data.passphrase], evaluated left
    to right and stopping at the first operand that is true. *)
Definition rejects (data : JSValue) : completion bool :=
  if negb (ToBoolean data) then Normal true
  else
    match looselyEqualsPassphrase (Get data "type") with
    | Throw x => Throw x
    | Normal false => Normal true
    | Normal true => Normal (negb (ToBoolean (Get data "passphrase")))
    end.

(** The [Prvt] object that the Wasm module exports: [Prvt.unlock] (awaited)
    and [Prvt.getIndex]. *)
Variable Prvt_unlock : JSValue -> completion JSValue.
Variable Prvt_getIndex : JSValue -> completion JSValue.

(** The client's request: what [await req.json()] gives. *)
Record Request : Type := { json : completion JSValue }.

(** A response built by [JSONResponse]. *)
Inductive Response : Type :=
| JSONResponse (body : JSValue).

(** The stores module. *)
Record Stores : Type := {
  masterKey : JSValue;
  keyId : JSValue;
  index : JSValue
}.

(** The state of the sandbox: the stores, the arguments [Prvt.unlock] was
    called with, and the messages that callbacks queued with [setTimeout] will
    broadcast in a later tick. *)
Record Sandbox : Type := {
  stores : Stores;
  unlockCalls : list JSValue;
  scheduled : list JSValue
}.

(** The default export. [Normal None] is a return without a value. *)
Definition handler (req : Request) (st : Sandbox)
  : completion (option Response) * Sandbox :=
  match json req with
  | Throw x => (Throw x, st)
  | Normal data =>
      match rejects data with
      | Throw x => (Throw x, st)
      | Normal true => (Normal None, st)
      | Normal false =>
          let st1 := {| stores := stores st;
                        unlockCalls := unlockCalls st ++ [Get data "passphrase"];
                        scheduled := scheduled st |} in
          match Prvt_unlock (Get data "passphrase") with
          | Throw x => (Throw x, st1)
          | Normal result =>
              if negb (ToBoolean result)
                 || negb (ToBoolean (Get result "masterKey"))
                 || negb (ToBoolean (Get result "keyId"))
              then (Throw "Invalid response", st1)
              else
                let mk := Get result "masterKey" in
                let kid := Get result "keyId" in
                match Prvt_getIndex mk with
                | Throw x =>
                    (Throw x,
                     {| stores := {| masterKey := mk; keyId := kid;
                                     index := index (stores st) |};
                        unlockCalls := unlockCalls st1;
                        scheduled := scheduled st |})
                | Normal idx =>
                    (Normal (Some (JSONResponse
                       (JObject [("keyId", kid); ("type", JString "passphrase")]))),
                     {| stores := {| masterKey := mk; keyId := kid; index := idx |};
                        unlockCalls := unlockCalls st1;
                        scheduled := scheduled st
                                     ++ [JObject [("message", JString "unlocked")]] |})
                end
          end
      end
  end.

End Runtime.

(** A sample host: [Prvt.unlock] accepts every passphrase. *)
Definition sampleNumberToString (n : PrimFloat.float) : string := "0".

Definition sampleUnlock (passphrase : JSValue) : completion JSValue :=
  Normal (JObject [("masterKey", JString "k"); ("keyId", JString "id")]).

Definition sampleGetIndex (key : JSValue) : completion JSValue :=
  Normal (JObject []).

Definition lockedSandbox : Sandbox :=
  {| stores := {| masterKey := JUndefined; keyId := JUndefined;
                  index := JUndefined |};
     unlockCalls := []; scheduled := [] |}.

(** [{"type": ["passphrase"], "passphrase": "x"}] *)
Definition arrayTypeBody : JSValue :=
  JObject [("type", JArray [JString "passphrase"]); ("passphrase", JString "x")].

(** [{"type": "gpg", "passphrase": "x"}] *)
Definition gpgTypeBody : JSValue :=
  JObject [("type", JString "gpg"); ("passphrase", JString "x")].

End UnlockHandler.

(** * The stores of the user interface

    The module of Svelte stores: [appInfo] holds the answer of [/api/info],
    [readOnly] is derived from it. *)

Module AppStores.

Import UnlockHandler.

(** The value [appInfo] is created with: [readable({}, ...)]. *)
Definition appInfoInitial : JSValue := JObject [].

(** The value of [appInfo] once [Request('/api/info')] has settled: the
    promise's value is handed to [set]; a rejection is logged and the store
    keeps the value it had. *)
Definition appInfo (response : completion JSValue) : JSValue :=
  match response with
  | Normal body => body
  | Throw _ => appInfoInitial
  end.

(** [derived(appInfo, ($appInfo) => $appInfo && $appInfo.readOnly)]: [a && b]
    is [a] when [a] is falsy, [b] otherwise. *)
Definition readOnly (appInfoValue : JSValue) : JSValue :=
  if ToBoolean appInfoValue then Get appInfoValue "readOnly" else appInfoValue.

End AppStores.

(** Further samples for the unlock handler: a well-formed body, and a host
    whose [Prvt.getIndex] throws. *)
Definition passphraseBody : UnlockHandler.JSValue :=
  UnlockHandler.JObject
    [("type", UnlockHandler.JString "passphrase");
     ("passphrase", UnlockHandler.JString "hunter2")].

Definition failingGetIndex (key : UnlockHandler.JSValue)
  : UnlockHandler.completion UnlockHandler.JSValue :=
  UnlockHandler.Throw "cannot decrypt the index".

(** * Properties of the orchestrator *)

(** ** Bytes and strings *)

Lemma bytes_eqb_refl (a : bytes) : bytes_eqb a a = true.
Proof.
  induction a as [|x a IH]; cbn; [reflexivity|].
  assert (Hx : Byte.eqb x x = true) by now apply Byte.byte_dec_lb.
  now rewrite Hx, IH.
Qed.

Lemma bytes_eqb_eq (a b : bytes) : bytes_eqb a b = true -> a = b.
Proof.
  revert b; induction a as [|x a IH]; intros [|y b] H; cbn in H;
    try discriminate; [reflexivity|].
  apply andb_true_iff in H as [Hxy Hab].
  apply Byte.byte_dec_bl in Hxy. apply IH in Hab. congruence.
Qed.

Lemma ConstantTimeCompare_refl (a : bytes) : ConstantTimeCompare a a = 1.
Proof. unfold ConstantTimeCompare. now rewrite bytes_eqb_refl. Qed.

Lemma ConstantTimeCompare_nonzero (a b : bytes) :
  (ConstantTimeCompare a b =? 0) = false -> a = b.
Proof.
  unfold ConstantTimeCompare. destruct (bytes_eqb a b) eqn:E; cbn.
  - intros _. now apply bytes_eqb_eq.
  - discriminate.
Qed.

Lemma lowerASCII_keeps_ASCII (c : ascii) :
  (N_of_ascii (lowerASCII c) <? 128)%N = (N_of_ascii c <? 128)%N.
Proof. destruct c as [[] [] [] [] [] [] [] []]; reflexivity. Qed.

Lemma isASCII_lowered (s : string) :
  isASCII (mapString lowerASCII s) = isASCII s.
Proof.
  induction s as [|c s IH]; cbn; [reflexivity|].
  now rewrite lowerASCII_keeps_ASCII, IH.
Qed.

Lemma eqASCIICase_isASCII (s t : string) :
  eqASCIICase s t -> isASCII s = isASCII t.
Proof.
  unfold eqASCIICase. intros H.
  rewrite <- (isASCII_lowered s), <- (isASCII_lowered t). now rewrite H.
Qed.

(** [strings.ToLower] gives one result on two identifiers that are equal up to
    ASCII case. *)
Lemma ToLower_eqASCIICase (X : Provider) (s t : string) :
  lowerRespectsASCIICase X -> eqASCIICase s t -> ToLower X s = ToLower X t.
Proof.
  intros HX H. unfold ToLower. rewrite (eqASCIICase_isASCII s t H).
  destruct (isASCII t); [exact H | now apply HX].
Qed.

(** ** Running the monad *)

(** Unfolds the operations of the monad. *)
Ltac run := unfold bind, ret, getInfo, putInfo, liftWorld in *; cbn in *.

(** ** The info file under the mutators *)

Section Frames.

Variable X : Provider.

(** [AddPassphrase] either refuses and changes nothing, or appends one entry
    to the keys and changes nothing else. *)
Lemma AddPassphrase_spec (salt hash wrapped : bytes) (s : State) :
  AddPassphrase X salt hash wrapped s =
    match acceptsPassphrase X (info s) salt hash wrapped with
    | Some e => (Some e, s)
    | None =>
        (None,
         {| info := setKeys (info s)
                      (Keys (info s) ++ [passphraseEntry salt hash wrapped]);
            world := world s |})
    end.
Proof.
  unfold AddPassphrase. run.
  now destruct (acceptsPassphrase X (info s) salt hash wrapped).
Qed.

Lemma AddGPGWrappedKey_spec (gpgKey : string) (wrapped : bytes) (s : State) :
  AddGPGWrappedKey X gpgKey wrapped s =
    match acceptsGPGWrappedKey X (info s) gpgKey wrapped with
    | Some e => (Some e, s)
    | None =>
        (None,
         {| info := setKeys (info s) (Keys (info s) ++ [gpgEntry gpgKey wrapped]);
            world := world s |})
    end.
Proof.
  unfold AddGPGWrappedKey. run.
  now destruct (acceptsGPGWrappedKey X (info s) gpgKey wrapped).
Qed.

(** The guard of [UpgradeInfoFile]: outside versions 1 and 2 the call fails
    and returns the state it was given. *)
Lemma UpgradeInfoFile_guard (s : State) :
  Version (info s) <> 1 -> Version (info s) <> 2 ->
  UpgradeInfoFile X s =
    ((UnsupportedVersion,
      Some "This repository has already been upgraded or is using an unsupported version"),
     s).
Proof.
  intros H1 H2. unfold UpgradeInfoFile. run.
  destruct (Z.eqb_spec (Version (info s)) 1); [contradiction|].
  destruct (Z.eqb_spec (Version (info s)) 2); [contradiction|].
  reflexivity.
Qed.

Lemma addKeyPassphrase_Version (mk : bytes) (s : State) :
  Version (info (snd (addKeyPassphrase X mk s))) = Version (info s).
Proof.
  unfold addKeyPassphrase. run.
  destruct (PromptPassphrase (world s)) as [[p|e] w1]; cbn; [|reflexivity].
  destruct (GetMasterKeyWithPassphrase X (info s) p) as [[[? ?] ?] [e|]]; cbn;
    [|reflexivity].
  destruct (NewSalt w1) as [[salt|e'] w2]; cbn; [|reflexivity].
  destruct (KeyFromPassphrase X p salt) as [[wk h]|e']; cbn; [|reflexivity].
  destruct (WrapKey X wk mk) as [wrapped|e']; cbn; [|reflexivity].
  rewrite AddPassphrase_spec; cbn.
  destruct (acceptsPassphrase X (info s) salt h wrapped); reflexivity.
Qed.

End Frames.

Section Versions.

Variable X : Provider.

Lemma addKeyGPG_Version (mk : bytes) (gpgKey : string) (s : State) :
  Version (info (snd (addKeyGPG X mk gpgKey s))) = Version (info s).
Proof.
  unfold addKeyGPG.
  destruct (GPGEncrypt X mk gpgKey) as [wrapped|e]; cbn; [|reflexivity].
  unfold bind. rewrite AddGPGWrappedKey_spec.
  destruct (acceptsGPGWrappedKey X (info s) gpgKey wrapped); reflexivity.
Qed.

Lemma AddKey_Version (mk : bytes) (gpgKey : string) (s : State) :
  Version (info (snd (AddKey X mk gpgKey s))) = Version (info s).
Proof.
  unfold AddKey. destruct (String.eqb gpgKey "");
    [apply addKeyPassphrase_Version|].
  run. destruct (existsb _ _); [reflexivity | apply addKeyGPG_Version].
Qed.

Lemma upgradeInfoFileV1_Version (s : State) :
  Version (info (snd (upgradeInfoFileV1 X s))) = Version (info s).
Proof.
  unfold upgradeInfoFileV1. run.
  destruct ((len (Salt (info s)) >? 0) && (len (ConfirmationHash (info s)) >? 0));
    [|reflexivity].
  destruct (PromptPassphrase (world s)) as [[p|e] w1]; cbn; [|reflexivity].
  destruct (KeyFromPassphrase X p (Salt (info s))) as [[mk h]|e]; cbn;
    [|reflexivity].
  destruct (ConstantTimeCompare (ConfirmationHash (info s)) h =? 0); cbn;
    [reflexivity|].
  destruct (NewSalt w1) as [[salt|e'] w2]; cbn; [|reflexivity].
  destruct (KeyFromPassphrase X p salt) as [[wk h']|e']; cbn; [|reflexivity].
  destruct (WrapKey X wk mk) as [wrapped|e']; cbn; [|reflexivity].
  rewrite AddPassphrase_spec; cbn.
  destruct (acceptsPassphrase X (info s) salt h' wrapped); reflexivity.
Qed.

Lemma UpgradeInfoFile_Version (s : State) :
  Version (info s) <= Version (info (snd (UpgradeInfoFile X s))).
Proof.
  unfold UpgradeInfoFile. run.
  destruct (Z.eqb_spec (Version (info s)) 1) as [E1|N1]; cbn.
  - rewrite E1; cbn.
    pose proof (upgradeInfoFileV1_Version s) as HV.
    destruct (upgradeInfoFileV1 X s) as [[msg [e|]] s']; cbn in *.
    + lia.
    + unfold updateVersion. run. lia.
  - destruct (Z.eqb_spec (Version (info s)) 2) as [E2|N2]; cbn; [|lia].
    destruct (Z.ltb_spec (Version (info s)) 2); [lia|].
    unfold updateVersion. run. lia.
Qed.

Lemma GetMasterKey_info (s : State) :
  info (snd (GetMasterKey X s)) = info s.
Proof.
  unfold GetMasterKey. run.
  destruct (GetMasterKeyWithGPG X (info s)) as [[[mk kid] msg] [e|]]; cbn;
    [|reflexivity].
  destruct (PromptPassphrase (world s)) as [[p|e'] w1]; reflexivity.
Qed.

End Versions.

(** ** Format migration *)

(** C1, as the code has it. [UpgradeInfoFile] on an info file that is already
    at version 3, called twice in succession, gives the same output both
    times, namely the error of an unsupported version, and leaves the info
    file (and the world) as it was. *)
Theorem UpgradeInfoFile_twice_at_version_3 (X : Provider) (s : State) :
  Version (info s) = 3 ->
  let (r1, s1) := UpgradeInfoFile X s in
  let (r2, s2) := UpgradeInfoFile X s1 in
  r1 = r2 /\ fst r1 = UnsupportedVersion /\ snd r1 <> None /\
  s1 = s /\ s2 = s.
Proof.
  intros H3.
  rewrite (UpgradeInfoFile_guard X s) by lia.
  rewrite (UpgradeInfoFile_guard X s) by lia.
  repeat split. discriminate.
Qed.

Lemma UpgradeInfoFile_twice_at_version_3_witness :
  Version (info {| info := currentInfo; world := sampleWorld |}) = 3 /\
  let (r1, s1) :=
    UpgradeInfoFile refProvider {| info := currentInfo; world := sampleWorld |} in
  let (r2, s2) := UpgradeInfoFile refProvider s1 in
  r1 = r2 /\ fst r1 = UnsupportedVersion /\ snd r1 <> None /\
  s1 = {| info := currentInfo; world := sampleWorld |} /\
  s2 = {| info := currentInfo; world := sampleWorld |}.
Proof.
  split; [reflexivity|].
  apply (UpgradeInfoFile_twice_at_version_3 refProvider
           {| info := currentInfo; world := sampleWorld |}).
  reflexivity.
Defined.

(** C1, as the claim has it, fails: at version 3 the call returns an error. *)
Lemma UpgradeInfoFile_at_version_3_errors :
  Version currentInfo = 3 /\
  fst (UpgradeInfoFile refProvider {| info := currentInfo; world := sampleWorld |})
  = (UnsupportedVersion,
     Some "This repository has already been upgraded or is using an unsupported version").
Proof. split; reflexivity. Qed.

(** C7. When the version at the start of the migration is neither 1 nor 2,
    [UpgradeInfoFile] fails with the error of an unsupported version and
    mutates nothing: the version, the keys and the legacy fields of the info
    file are what they were before the call. *)
Theorem UpgradeInfoFile_unsupported_version (X : Provider) (s : State) :
  Version (info s) <> 1 -> Version (info s) <> 2 ->
  exists e s',
    UpgradeInfoFile X s = ((UnsupportedVersion, Some e), s') /\
    s' = s /\
    Version (info s') = Version (info s) /\
    Keys (info s') = Keys (info s) /\
    Salt (info s') = Salt (info s) /\
    ConfirmationHash (info s') = ConfirmationHash (info s).
Proof.
  intros H1 H2. eexists; exists s.
  split; [now apply UpgradeInfoFile_guard|]. repeat split.
Qed.

Lemma UpgradeInfoFile_unsupported_version_witness :
  exists e s',
    UpgradeInfoFile refProvider
      {| info := setVersion legacyInfo (-1); world := sampleWorld |}
    = ((UnsupportedVersion, Some e), s') /\
    s' = {| info := setVersion legacyInfo (-1); world := sampleWorld |} /\
    Version (info s') = -1 /\
    Keys (info s') = Keys legacyInfo /\
    Salt (info s') = Salt legacyInfo /\
    ConfirmationHash (info s') = ConfirmationHash legacyInfo.
Proof.
  apply (UpgradeInfoFile_unsupported_version refProvider
           {| info := setVersion legacyInfo (-1); world := sampleWorld |});
    cbn; lia.
Defined.

(** C8. On a version 1 info file whose legacy salt or legacy confirmation hash
    is not populated the migration succeeds without a rotation: the version
    becomes 3, the current one, the keys and the legacy fields are unchanged,
    and the world is untouched (no prompt, no salt drawn, hence no
    rewrapping). *)
Theorem UpgradeInfoFile_without_legacy_fields (X : Provider) (s : State) :
  Version (info s) = 1 ->
  Salt (info s) = [] \/ ConfirmationHash (info s) = [] ->
  exists s',
    UpgradeInfoFile X s = (("", None), s') /\
    Version (info s') = 3 /\
    Version (info s') = currentVersion /\
    Keys (info s') = Keys (info s) /\
    Salt (info s') = Salt (info s) /\
    ConfirmationHash (info s') = ConfirmationHash (info s) /\
    world s' = world s.
Proof.
  intros H1 Hlegacy.
  exists {| info := setVersion (info s) 3; world := world s |}.
  split; [|repeat split].
  unfold UpgradeInfoFile, upgradeInfoFileV1, updateVersion. run.
  rewrite H1; cbn.
  assert (Hskip : (len (Salt (info s)) >? 0)
                  && (len (ConfirmationHash (info s)) >? 0) = false).
  { destruct Hlegacy as [E|E]; rewrite E; cbn;
      [reflexivity | apply andb_false_r]. }
  rewrite Hskip. reflexivity.
Qed.

Lemma UpgradeInfoFile_without_legacy_fields_witness :
  exists s',
    UpgradeInfoFile refProvider {| info := gpgOnlyInfo; world := sampleWorld |}
    = (("", None), s') /\
    Version (info s') = 3 /\
    Version (info s') = currentVersion /\
    Keys (info s') = Keys gpgOnlyInfo /\
    Salt (info s') = Salt gpgOnlyInfo /\
    ConfirmationHash (info s') = ConfirmationHash gpgOnlyInfo /\
    world s' = sampleWorld.
Proof.
  apply (UpgradeInfoFile_without_legacy_fields refProvider
           {| info := gpgOnlyInfo; world := sampleWorld |});
    [reflexivity | left; reflexivity].
Defined.

(** C9. No public operation lowers the version of the info file: [AddKey] and
    [GetMasterKey] leave it as it is, [UpgradeInfoFile] leaves it or raises
    it. *)
Theorem Version_never_decreases (X : Provider) (masterKey : bytes)
  (gpgKey : string) (s : State) :
  Version (info s) <= Version (info (snd (AddKey X masterKey gpgKey s))) /\
  Version (info s) <= Version (info (snd (UpgradeInfoFile X s))) /\
  Version (info s) <= Version (info (snd (GetMasterKey X s))).
Proof.
  split; [|split].
  - rewrite AddKey_Version. lia.
  - apply UpgradeInfoFile_Version.
  - rewrite GetMasterKey_info. lia.
Qed.

(** ** Unlock *)

Section Unlock.

Variable X : Provider.

(** The first entry that the local asymmetric material unwraps wins. *)
Lemma unlockWithGPG_first (before after : list InfoFileKey) (k : InfoFileKey)
  (mk : bytes) :
  Forall (fun k' => tryGPGEntry X k' = None) before ->
  tryGPGEntry X k = Some mk ->
  unlockWithGPG X (before ++ k :: after) = (mk, Key.GPGKey k, "", None).
Proof.
  intros Hbefore Hk. induction Hbefore as [|k' before Hk' _ IH]; cbn.
  - now rewrite Hk.
  - now rewrite Hk'.
Qed.

Lemma unlockWithGPG_none (ks : list InfoFileKey) :
  Forall (fun k => tryGPGEntry X k = None) ks ->
  unlockWithGPG X ks = ([], "", InvalidCredentials, Some "Invalid GPG key").
Proof.
  induction 1 as [|k ks Hk _ IH]; cbn; [reflexivity|]. now rewrite Hk.
Qed.

Lemma PromptPassphrase_prompted (w w' : World) (r : result string) :
  PromptPassphrase w = (r, w') -> prompted w' = S (prompted w).
Proof.
  unfold PromptPassphrase. destruct (Run (inputs w)) as [r0 rest].
  intros H; inversion H; reflexivity.
Qed.

End Unlock.

(** C4. [GetMasterKey] first tries the asymmetric entries, in list order and
    without asking for anything: when one of them unwraps, the first that does
    is returned with its recipient id, and the world is as before the call (no
    prompt was shown, no input consumed). Only when none of them unwraps does
    it ask the factor source for a passphrase, and it does so exactly once,
    whatever the answer. *)
Theorem GetMasterKey_tries_GPG_first (X : Provider) (s : State) :
  (forall (before : list InfoFileKey) k after mk,
      Keys (info s) = (before ++ k :: after)%list ->
      Forall (fun k' => tryGPGEntry X k' = None) before ->
      tryGPGEntry X k = Some mk ->
      GetMasterKey X s = ((mk, Key.GPGKey k, "", None), s)) /\
  (Forall (fun k => tryGPGEntry X k = None) (Keys (info s)) ->
   exists r w',
     PromptPassphrase (world s) = (r, w') /\
     prompted w' = S (prompted (world s)) /\
     GetMasterKey X s =
       (match r with
        | Err e => ([], "", "Error getting passphrase", Some e)
        | Ok passphrase => GetMasterKeyWithPassphrase X (info s) passphrase
        end,
        {| info := info s; world := w' |})).
Proof.
  split.
  - intros before k after mk HK Hbefore Hk.
    unfold GetMasterKey, GetMasterKeyWithGPG. run.
    rewrite HK, (unlockWithGPG_first X before after k mk Hbefore Hk).
    reflexivity.
  - intros Hnone.
    destruct (PromptPassphrase (world s)) as [r w'] eqn:HP.
    exists r, w'. split; [reflexivity|].
    split; [exact (PromptPassphrase_prompted _ _ _ HP)|].
    unfold GetMasterKey, GetMasterKeyWithGPG. run.
    rewrite (unlockWithGPG_none X _ Hnone), HP.
    destruct r; reflexivity.
Qed.

Lemma GetMasterKey_tries_GPG_first_witness :
  GetMasterKey refProvider {| info := currentInfo; world := sampleWorld |} =
    (([x11; x22; x33], "alice", "", None),
     {| info := currentInfo; world := sampleWorld |}) /\
  exists r w',
    PromptPassphrase sampleWorld = (r, w') /\
    prompted w' = S (prompted sampleWorld) /\
    GetMasterKey refProvider {| info := legacyInfo; world := sampleWorld |} =
      (match r with
       | Err e => ([], "", "Error getting passphrase", Some e)
       | Ok passphrase => GetMasterKeyWithPassphrase refProvider legacyInfo passphrase
       end,
       {| info := legacyInfo; world := w' |}).
Proof.
  split.
  - apply (proj1 (GetMasterKey_tries_GPG_first refProvider
                    {| info := currentInfo; world := sampleWorld |})
             [passphraseEntry [x0a; x0b]
                [x0b; x0a; x68; x75; x6e; x74; x65; x72; x32] [x33; x22; x11]]
             (gpgEntry "alice" [x01; x11; x22; x33]) [] [x11; x22; x33]).
    + reflexivity.
    + repeat constructor.
    + reflexivity.
  - apply (proj2 (GetMasterKey_tries_GPG_first refProvider
                    {| info := legacyInfo; world := sampleWorld |})).
    repeat constructor.
Defined.

(** ** Adding unlock factors *)

(** C5. When the passphrase that the factor source delivers already unlocks
    the info file, [AddKey] with an empty GPG key fails with the error of a
    duplicate factor and leaves the info file, hence the length of its keys,
    as it was. *)
Theorem AddKey_passphrase_duplicate (X : Provider) (masterKey : bytes)
  (s : State) (passphrase : string) (w1 : World) :
  PromptPassphrase (world s) = (Ok passphrase, w1) ->
  snd (GetMasterKeyWithPassphrase X (info s) passphrase) = None ->
  exists s',
    AddKey X masterKey "" s =
      ((DuplicateFactor,
        Some "This passphrase has already been added to the repository"), s') /\
    info s' = info s /\
    len (Keys (info s')) = len (Keys (info s)).
Proof.
  intros HP Hunlocks.
  exists {| info := info s; world := w1 |}.
  split; [|split; reflexivity].
  unfold AddKey; cbn. unfold addKeyPassphrase. run. rewrite HP; cbn.
  destruct (GetMasterKeyWithPassphrase X (info s) passphrase)
    as [[[mk kid] msg] err].
  cbn in Hunlocks. subst err. reflexivity.
Qed.

Lemma AddKey_passphrase_duplicate_witness :
  exists s',
    AddKey refProvider [x11; x22; x33] ""
      {| info := currentInfo; world := sampleWorld |} =
      ((DuplicateFactor,
        Some "This passphrase has already been added to the repository"), s') /\
    info s' = currentInfo /\
    len (Keys (info s')) = 2.
Proof.
  apply (AddKey_passphrase_duplicate refProvider [x11; x22; x33]
           {| info := currentInfo; world := sampleWorld |} "hunter2"
           {| inputs := []; prompted := 1; salts := salts sampleWorld;
              newKeys := newKeys sampleWorld |});
    reflexivity.
Defined.

Lemma existsb_ToLower (X : Provider) (gpgKey : string) (ks : list InfoFileKey) :
  lowerRespectsASCIICase X ->
  (exists k, In k ks /\ eqASCIICase (Key.GPGKey k) gpgKey) ->
  existsb (fun k => String.eqb (ToLower X (Key.GPGKey k)) (ToLower X gpgKey)) ks
  = true.
Proof.
  intros HX [k [Hin Heq]]. apply existsb_exists. exists k. split; [exact Hin|].
  apply String.eqb_eq. now apply ToLower_eqASCIICase.
Qed.

Lemma existsb_ToLower_absent (X : Provider) (gpgKey : string)
  (ks : list InfoFileKey) :
  (forall k, In k ks -> ToLower X (Key.GPGKey k) <> ToLower X gpgKey) ->
  existsb (fun k => String.eqb (ToLower X (Key.GPGKey k)) (ToLower X gpgKey)) ks
  = false.
Proof.
  intros Habsent.
  destruct (existsb _ ks) eqn:E; [|reflexivity].
  apply existsb_exists in E as [k [Hin Heq]].
  apply String.eqb_eq in Heq. now apply Habsent in Hin.
Qed.

(** C6. [AddKey] with a GPG key id that equals, up to ASCII case, the GPG key
    id of an entry of the info file fails with the error of a duplicate factor
    and leaves the info file (and the world) as it was. With a key id that no
    entry has, compared case-insensitively as [strings.ToLower] does, the
    master key is wrapped for that key and the entry is appended: the keys
    are the keys there were followed by one entry that holds the GPG key id
    and the wrapped key, and nothing else changes; a failure of the wrapping,
    or a refusal by the info file, is returned and leaves the info file as it
    was. *)
Theorem AddKey_GPG_case_insensitive (X : Provider) (masterKey : bytes)
  (gpgKey : string) (s : State) :
  lowerRespectsASCIICase X ->
  gpgKey <> "" ->
  ((exists k, In k (Keys (info s)) /\ eqASCIICase (Key.GPGKey k) gpgKey) ->
   AddKey X masterKey gpgKey s =
     ((DuplicateFactor,
       Some "This GPG key has already been added to the repository"), s)) /\
  ((forall k, In k (Keys (info s)) ->
              ToLower X (Key.GPGKey k) <> ToLower X gpgKey) ->
   match GPGEncrypt X masterKey gpgKey with
   | Err e =>
       AddKey X masterKey gpgKey s =
         (("Error encrypting the master key with GPG", Some e), s)
   | Ok wrappedKey =>
       match acceptsGPGWrappedKey X (info s) gpgKey wrappedKey with
       | Some e =>
           AddKey X masterKey gpgKey s = (("Error adding the key", Some e), s)
       | None =>
           exists s',
             AddKey X masterKey gpgKey s = (("", None), s') /\
             Keys (info s') =
               (Keys (info s)
                ++ [{| Key.MasterKey := wrappedKey; Key.ConfirmationHash := [];
                       Key.Salt := []; Key.GPGKey := gpgKey |}])%list /\
             List.length (Keys (info s')) = S (List.length (Keys (info s))) /\
             Version (info s') = Version (info s) /\
             Salt (info s') = Salt (info s) /\
             ConfirmationHash (info s') = ConfirmationHash (info s) /\
             world s' = world s
       end
   end).
Proof.
  intros HX Hne.
  assert (Hgpg : String.eqb gpgKey "" = false) by now apply String.eqb_neq.
  split.
  - intros Hdup. unfold AddKey. rewrite Hgpg. run.
    now rewrite (existsb_ToLower X gpgKey _ HX Hdup).
  - intros Habsent. unfold AddKey. rewrite Hgpg. run.
    rewrite (existsb_ToLower_absent X gpgKey _ Habsent).
    unfold addKeyGPG.
    destruct (GPGEncrypt X masterKey gpgKey) as [wrapped|e]; [|reflexivity].
    unfold bind. rewrite AddGPGWrappedKey_spec.
    destruct (acceptsGPGWrappedKey X (info s) gpgKey wrapped); [reflexivity|].
    eexists. split; [reflexivity|]. cbn.
    repeat split. rewrite length_app; cbn. lia.
Qed.

Lemma refProvider_lower : lowerRespectsASCIICase refProvider.
Proof. intros s t H. exact H. Defined.

Lemma AddKey_GPG_case_insensitive_witness :
  AddKey refProvider [x11; x22; x33] "abc"
    {| info := legacyInfo; world := sampleWorld |} =
    ((DuplicateFactor,
      Some "This GPG key has already been added to the repository"),
     {| info := legacyInfo; world := sampleWorld |}) /\
  exists s',
    AddKey refProvider [x11; x22; x33] "alice"
      {| info := legacyInfo; world := sampleWorld |} = (("", None), s') /\
    Keys (info s') =
      (Keys legacyInfo
       ++ [{| Key.MasterKey := [x01; x11; x22; x33]; Key.ConfirmationHash := [];
              Key.Salt := []; Key.GPGKey := "alice" |}])%list /\
    List.length (Keys (info s')) = S (List.length (Keys legacyInfo)) /\
    Version (info s') = Version legacyInfo /\
    Salt (info s') = Salt legacyInfo /\
    ConfirmationHash (info s') = ConfirmationHash legacyInfo /\
    world s' = sampleWorld.
Proof.
  split.
  - apply (proj1 (AddKey_GPG_case_insensitive refProvider [x11; x22; x33] "abc"
                    {| info := legacyInfo; world := sampleWorld |}
                    refProvider_lower ltac:(discriminate))).
    exists (gpgEntry "ABC" [x02; x05]). split; [left|]; reflexivity.
  - apply (proj2 (AddKey_GPG_case_insensitive refProvider [x11; x22; x33] "alice"
                    {| info := legacyInfo; world := sampleWorld |}
                    refProvider_lower ltac:(discriminate))).
    intros k [Hk|[]]. subst k. discriminate.
Defined.

(** ** Rotation of the legacy passphrase *)

Lemma len_populated {A : Type} (l : list A) : l <> [] -> (len l >? 0) = true.
Proof.
  destruct l as [|x l]; [congruence|]. intros _. unfold len; cbn [List.length].
  apply Z.gtb_lt. lia.
Qed.

Lemma PromptPassphrase_salts (w w' : World) (r : result string) :
  PromptPassphrase w = (r, w') -> salts w' = salts w.
Proof.
  unfold PromptPassphrase. destruct (Run (inputs w)) as [r0 rest].
  intros H; inversion H; reflexivity.
Qed.

Lemma NewSalt_hd (w w' : World) (salt : bytes) :
  NewSalt w = (Ok salt, w') -> hd_error (salts w) = Some (Ok salt).
Proof.
  unfold NewSalt. destruct (salts w) as [|r rest]; intros H; inversion H.
  reflexivity.
Qed.

(** A successful upgrade from version 1 with the legacy fields populated: the
    steps it went through, and the state it leaves. *)
Lemma upgradeInfoFileV1_success (X : Provider) (s s' : State) :
  Salt (info s) <> [] -> ConfirmationHash (info s) <> [] ->
  upgradeInfoFileV1 X s = (("", None), s') ->
  exists passphrase w1 masterKey newSalt wrappingKey newHash wrappedKey w2,
    PromptPassphrase (world s) = (Ok passphrase, w1) /\
    KeyFromPassphrase X passphrase (Salt (info s))
      = Ok (masterKey, ConfirmationHash (info s)) /\
    NewSalt w1 = (Ok newSalt, w2) /\
    KeyFromPassphrase X passphrase newSalt = Ok (wrappingKey, newHash) /\
    WrapKey X wrappingKey masterKey = Ok wrappedKey /\
    s' = {| info := clearLegacy
                      (setKeys (info s)
                         (Keys (info s)
                          ++ [passphraseEntry newSalt newHash wrappedKey]));
            world := w2 |}.
Proof.
  intros HS HC. unfold upgradeInfoFileV1. run.
  rewrite (len_populated _ HS), (len_populated _ HC); cbn.
  destruct (PromptPassphrase (world s)) as [[p|e] w1] eqn:HP; cbn;
    [|discriminate].
  destruct (KeyFromPassphrase X p (Salt (info s))) as [[mk h]|e] eqn:HK; cbn;
    [|discriminate].
  destruct (ConstantTimeCompare (ConfirmationHash (info s)) h =? 0) eqn:HCmp;
    cbn; [discriminate|].
  apply ConstantTimeCompare_nonzero in HCmp. subst h.
  destruct (NewSalt w1) as [[salt|e'] w2] eqn:HN; cbn; [|discriminate].
  destruct (KeyFromPassphrase X p salt) as [[wk h']|e'] eqn:HK'; cbn;
    [|discriminate].
  destruct (WrapKey X wk mk) as [wrapped|e'] eqn:HW; cbn; [|discriminate].
  rewrite AddPassphrase_spec; cbn.
  destruct (acceptsPassphrase X (info s) salt h' wrapped); cbn; [discriminate|].
  intros H; inversion H; subst s'.
  exists p, w1, mk, salt, wk, h', wrapped, w2. repeat split; assumption.
Qed.

(** The migration does succeed when the user submits the correct passphrase
    and the provider and the info file do their part. *)
Lemma UpgradeInfoFile_legacy_succeeds (X : Provider) (s : State)
  (passphrase : string) (w1 w2 : World)
  (masterKey newSalt wrappingKey newHash wrappedKey : bytes) :
  Version (info s) = 1 ->
  Salt (info s) <> [] -> ConfirmationHash (info s) <> [] ->
  PromptPassphrase (world s) = (Ok passphrase, w1) ->
  KeyFromPassphrase X passphrase (Salt (info s))
    = Ok (masterKey, ConfirmationHash (info s)) ->
  NewSalt w1 = (Ok newSalt, w2) ->
  KeyFromPassphrase X passphrase newSalt = Ok (wrappingKey, newHash) ->
  WrapKey X wrappingKey masterKey = Ok wrappedKey ->
  acceptsPassphrase X (info s) newSalt newHash wrappedKey = None ->
  UpgradeInfoFile X s =
    (("", None),
     {| info :=
          setVersion
            (clearLegacy
               (setKeys (info s)
                  (Keys (info s)
                   ++ [passphraseEntry newSalt newHash wrappedKey])))
            currentVersion;
        world := w2 |}).
Proof.
  intros H1 HS HC HP HK HN HK' HW HA.
  unfold UpgradeInfoFile. run. rewrite H1; cbn.
  unfold upgradeInfoFileV1. run.
  rewrite (len_populated _ HS), (len_populated _ HC); cbn.
  rewrite HP; cbn. rewrite HK; cbn.
  rewrite ConstantTimeCompare_refl; cbn.
  rewrite HN; cbn. rewrite HK'; cbn. rewrite HW; cbn.
  rewrite AddPassphrase_spec; cbn. rewrite HA; cbn.
  reflexivity.
Qed.

(** C3, as the code has it. A migration that succeeds on a version 1 info
    file with the legacy salt and confirmation hash populated was given the
    correct passphrase (the one whose derivation with the legacy salt gives
    the legacy confirmation hash, and the master key). It clears both legacy
    fields, sets the version to 3, appends exactly one entry to the keys and
    keeps the entries that were there, in order; the new entry is a passphrase
    entry whose salt is the one the random source generated during the call,
    which the code does not compare with the legacy salt: it differs from the
    legacy salt exactly when the random source delivers another value; and the
    new entry unwraps, with the same passphrase, to the original master key. *)
Theorem UpgradeInfoFile_rotates_legacy_passphrase (X : Provider) (s s' : State) :
  wrapRoundTrip X ->
  Version (info s) = 1 ->
  Salt (info s) <> [] -> ConfirmationHash (info s) <> [] ->
  UpgradeInfoFile X s = (("", None), s') ->
  exists passphrase w1 masterKey newSalt entry,
    PromptPassphrase (world s) = (Ok passphrase, w1) /\
    KeyFromPassphrase X passphrase (Salt (info s))
      = Ok (masterKey, ConfirmationHash (info s)) /\
    NewSalt w1 = (Ok newSalt, world s') /\
    hd_error (salts (world s)) = Some (Ok newSalt) /\
    (newSalt <> Salt (info s) <->
     hd_error (salts (world s)) <> Some (Ok (Salt (info s)))) /\
    Key.Salt entry = newSalt /\
    Key.GPGKey entry = "" /\
    Keys (info s') = (Keys (info s) ++ [entry])%list /\
    Salt (info s') = [] /\
    ConfirmationHash (info s') = [] /\
    Version (info s') = 3 /\
    tryPassphraseEntry X passphrase entry = Some (Ok masterKey).
Proof.
  intros HRT H1 HS HC Hrun.
  unfold UpgradeInfoFile in Hrun. run. rewrite H1 in Hrun; cbn in Hrun.
  destruct (upgradeInfoFileV1 X s) as [[msg err] s1] eqn:HV1.
  destruct err as [e|]; [discriminate|].
  unfold updateVersion in Hrun. run. inversion Hrun; subst s'; clear Hrun.
  assert (msg = "") as ->.
  { revert HV1. unfold upgradeInfoFileV1. run.
    rewrite (len_populated _ HS), (len_populated _ HC); cbn.
    destruct (PromptPassphrase (world s)) as [[p|e] w1]; cbn; [|discriminate].
    destruct (KeyFromPassphrase X p (Salt (info s))) as [[mk h]|e]; cbn;
      [|discriminate].
    destruct (ConstantTimeCompare (ConfirmationHash (info s)) h =? 0); cbn;
      [discriminate|].
    destruct (NewSalt w1) as [[salt|e'] w2]; cbn; [|discriminate].
    destruct (KeyFromPassphrase X p salt) as [[wk h']|e']; cbn; [|discriminate].
    destruct (WrapKey X wk mk) as [wrapped|e']; cbn; [|discriminate].
    destruct (AddPassphrase X salt h' wrapped _) as [[e'|] s2]; cbn;
      intros H; inversion H; reflexivity. }
  apply (upgradeInfoFileV1_success X s s1 HS HC) in HV1
    as (p & w1 & mk & salt & wk & h' & wrapped & w2
        & HP & HK & HN & HK' & HW & ->).
  assert (Hhd : hd_error (salts (world s)) = Some (Ok salt)).
  { rewrite <- (PromptPassphrase_salts _ _ _ HP). exact (NewSalt_hd _ _ _ HN). }
  exists p, w1, mk, salt, (passphraseEntry salt h' wrapped).
  cbn. repeat split; try assumption.
  - intros Hne E. rewrite Hhd in E. inversion E. contradiction.
  - intros Hne E. apply Hne. rewrite Hhd, E. reflexivity.
  - unfold tryPassphraseEntry; cbn. rewrite HK', ConstantTimeCompare_refl; cbn.
    now rewrite (HRT _ _ _ HW).
Qed.

Lemma refProvider_roundTrip : wrapRoundTrip refProvider.
Proof.
  intros wk payload blob H. cbn in *. inversion H. now rewrite rev_involutive.
Defined.

Lemma UpgradeInfoFile_rotates_legacy_passphrase_witness :
  exists passphrase w1 masterKey newSalt entry,
    PromptPassphrase sampleWorld = (Ok passphrase, w1) /\
    KeyFromPassphrase refProvider passphrase (Salt legacyInfo)
      = Ok (masterKey, ConfirmationHash legacyInfo) /\
    NewSalt w1 = (Ok newSalt, rotatedWorld) /\
    hd_error (salts sampleWorld) = Some (Ok newSalt) /\
    (newSalt <> Salt legacyInfo <->
     hd_error (salts sampleWorld) <> Some (Ok (Salt legacyInfo))) /\
    Key.Salt entry = newSalt /\
    Key.GPGKey entry = "" /\
    Keys rotatedInfo = (Keys legacyInfo ++ [entry])%list /\
    Salt rotatedInfo = [] /\
    ConfirmationHash rotatedInfo = [] /\
    Version rotatedInfo = 3 /\
    tryPassphraseEntry refProvider passphrase entry = Some (Ok masterKey).
Proof.
  apply (UpgradeInfoFile_rotates_legacy_passphrase refProvider
           {| info := legacyInfo; world := sampleWorld |}
           {| info := rotatedInfo; world := rotatedWorld |}
           refProvider_roundTrip);
    try reflexivity; cbn; discriminate.
Defined.

(** C3, as the claim has it, fails: the salt of the new entry is whatever the
    random source delivers, and nothing compares it with the legacy salt. When
    the random source delivers the legacy salt again, the migration of
    [legacyInfo] with the correct passphrase succeeds and the entry it appends
    carries the legacy salt. *)
Lemma UpgradeInfoFile_may_reuse_legacy_salt :
  Version legacyInfo = 1 /\
  Salt legacyInfo <> [] /\
  ConfirmationHash legacyInfo <> [] /\
  exists s' entry,
    UpgradeInfoFile refProvider {| info := legacyInfo; world := repeatingWorld |}
    = (("", None), s') /\
    Keys (info s') = (Keys legacyInfo ++ [entry])%list /\
    Key.GPGKey entry = "" /\
    Key.Salt entry = Salt legacyInfo.
Proof.
  split; [reflexivity|]. split; [discriminate|]. split; [discriminate|].
  eexists. eexists. split; [reflexivity|]. cbn. repeat split.
Qed.

(** ** Repository creation *)

(** C2 fails on the code. When [AddKey] returns an error, [NewInfoFile] sets
    [info] to [nil] and then returns a [nil] error: its caller is told of no
    failure. *)
Theorem NewInfoFile_drops_AddKey_error (X : Provider) (gpgKey : string)
  (w w1 : World) (i0 : InfoFile) (masterKey : bytes) (errMessage e : string)
  (s' : State) :
  infofile.New = Ok i0 ->
  NewKey w = (Ok masterKey, w1) ->
  AddKey X masterKey gpgKey {| info := i0; world := w1 |}
    = ((errMessage, Some e), s') ->
  NewInfoFile X gpgKey w = ((None, "", None), world s').
Proof.
  intros HNew HKey HAdd. unfold NewInfoFile.
  rewrite HNew, HKey, HAdd. reflexivity.
Qed.

Lemma NewInfoFile_drops_AddKey_error_witness :
  AddKey refProvider [x11; x22; x33] ""
    {| info := {| Version := 3; Salt := []; ConfirmationHash := []; Keys := [] |};
       world := {| inputs := [Interrupt "^C"]; prompted := 0;
                   salts := [Ok [x0a; x0b]]; newKeys := [] |} |}
  = (("Error getting passphrase", Some "^C"),
     {| info := {| Version := 3; Salt := []; ConfirmationHash := []; Keys := [] |};
        world := {| inputs := []; prompted := 1;
                    salts := [Ok [x0a; x0b]]; newKeys := [] |} |}) /\
  NewInfoFile refProvider "" interruptedWorld =
    ((None, "", None),
     {| inputs := []; prompted := 1; salts := [Ok [x0a; x0b]]; newKeys := [] |}).
Proof.
  split; [reflexivity|].
  apply (NewInfoFile_drops_AddKey_error refProvider "" interruptedWorld
           {| inputs := [Interrupt "^C"]; prompted := 0;
              salts := [Ok [x0a; x0b]]; newKeys := [] |}
           {| Version := 3; Salt := []; ConfirmationHash := []; Keys := [] |}
           [x11; x22; x33] "Error getting passphrase" "^C"
           {| info := {| Version := 3; Salt := []; ConfirmationHash := [];
                         Keys := [] |};
              world := {| inputs := []; prompted := 1;
                          salts := [Ok [x0a; x0b]]; newKeys := [] |} |});
    reflexivity.
Defined.

(** * Properties of the unlock handler *)

Section HandlerProperties.

Import UnlockHandler.

Variable NumberToString : PrimFloat.float -> string.
Variable Prvt_unlock : JSValue -> completion JSValue.
Variable Prvt_getIndex : JSValue -> completion JSValue.

(** The three ways in which the guard of the handler holds. *)
Lemma rejects_true (data : JSValue) :
  ToBoolean data = false \/
  looselyEqualsPassphrase NumberToString (Get data "type") = Normal false \/
  ((exists b, looselyEqualsPassphrase NumberToString (Get data "type") = Normal b)
   /\ ToBoolean (Get data "passphrase") = false) ->
  rejects NumberToString data = Normal true.
Proof.
  unfold rejects. intros [H|[H|[[b H] Hp]]].
  - now rewrite H.
  - rewrite H. now destruct (ToBoolean data).
  - rewrite H, Hp. now destruct (ToBoolean data), b.
Qed.

(** C10, as the code has it. When the body of the request is falsy ([null],
    [false], [0], the empty string), or its [type] is not loosely equal to
    ['passphrase'], or its [type] compares without an exception and its
    [passphrase] is falsy (missing, [null], [false], [0] or empty), the handler
    returns without a value and leaves the sandbox as it was: [Prvt.unlock] is
    not called, the stores are not written and no broadcast is queued. *)
Theorem handler_rejected_request (req : Request) (data : JSValue)
  (st : Sandbox) :
  json req = Normal data ->
  ToBoolean data = false \/
  looselyEqualsPassphrase NumberToString (Get data "type") = Normal false \/
  ((exists b, looselyEqualsPassphrase NumberToString (Get data "type") = Normal b)
   /\ ToBoolean (Get data "passphrase") = false) ->
  handler NumberToString Prvt_unlock Prvt_getIndex req st = (Normal None, st).
Proof.
  intros Hjson Hguard. unfold handler.
  now rewrite Hjson, (rejects_true data Hguard).
Qed.

(** In particular, a request whose [type] is missing, [null], a boolean, or a
    string other than ["passphrase"] is rejected so. *)
Corollary handler_rejects_other_primitive_type (req : Request)
  (data : JSValue) (st : Sandbox) :
  json req = Normal data ->
  match Get data "type" with
  | JUndefined | JNull | JBool _ => True
  | JString t => t <> "passphrase"
  | _ => False
  end ->
  handler NumberToString Prvt_unlock Prvt_getIndex req st = (Normal None, st).
Proof.
  intros Hjson Htype. unfold handler. rewrite Hjson.
  rewrite rejects_true; [reflexivity|].
  right; left.
  destruct (Get data "type") as [| |[|]| |t| |]; cbn; try reflexivity;
    try contradiction.
  apply String.eqb_neq in Htype. now rewrite Htype.
Qed.

End HandlerProperties.

Lemma handler_rejected_request_witness :
  UnlockHandler.handler UnlockHandler.sampleNumberToString
    UnlockHandler.sampleUnlock UnlockHandler.sampleGetIndex
    {| UnlockHandler.json := UnlockHandler.Normal UnlockHandler.gpgTypeBody |}
    UnlockHandler.lockedSandbox
  = (UnlockHandler.Normal None, UnlockHandler.lockedSandbox).
Proof.
  apply (handler_rejected_request UnlockHandler.sampleNumberToString
           UnlockHandler.sampleUnlock UnlockHandler.sampleGetIndex
           {| UnlockHandler.json := UnlockHandler.Normal UnlockHandler.gpgTypeBody |}
           UnlockHandler.gpgTypeBody UnlockHandler.lockedSandbox eq_refl).
  right; left; reflexivity.
Defined.

(** C10, as the claim has it, fails: a request whose [type] is the array
    [["passphrase"]], which is other than the string ["passphrase"], passes the
    guard, because [!=] converts the array to the string it renders as. The
    handler then calls [Prvt.unlock], writes the stores, queues the broadcast
    and returns a response. *)
Lemma handler_array_type_unlocks :
  UnlockHandler.Get UnlockHandler.arrayTypeBody "type"
  <> UnlockHandler.JString "passphrase" /\
  UnlockHandler.handler UnlockHandler.sampleNumberToString
    UnlockHandler.sampleUnlock UnlockHandler.sampleGetIndex
    {| UnlockHandler.json := UnlockHandler.Normal UnlockHandler.arrayTypeBody |}
    UnlockHandler.lockedSandbox
  = (UnlockHandler.Normal
       (Some (UnlockHandler.JSONResponse
                (UnlockHandler.JObject
                   [("keyId", UnlockHandler.JString "id");
                    ("type", UnlockHandler.JString "passphrase")]))),
     {| UnlockHandler.stores :=
          {| UnlockHandler.masterKey := UnlockHandler.JString "k";
             UnlockHandler.keyId := UnlockHandler.JString "id";
             UnlockHandler.index := UnlockHandler.JObject [] |};
        UnlockHandler.unlockCalls := [UnlockHandler.JString "x"];
        UnlockHandler.scheduled :=
          [UnlockHandler.JObject
             [("message", UnlockHandler.JString "unlocked")]] |}).
Proof. split; [discriminate | reflexivity]. Qed.

(** * Further properties of the orchestrator *)

(** ** The prompt *)

Lemma Run_validates (ins rest : list Input) (p : string) :
  Run ins = (Ok p, rest) -> Validate p = None.
Proof.
  induction ins as [|[line|e] ins IH]; cbn; intros H; try discriminate.
  destruct (Validate line) eqn:V; [now apply IH|].
  inversion H; subst. exact V.
Qed.

(** X1. A passphrase that [PromptPassphrase] returns is never empty, however
    many empty lines the user submitted before it, and the call shows one
    prompt. *)
Theorem PromptPassphrase_never_empty (w w' : World) (passphrase : string) :
  PromptPassphrase w = (Ok passphrase, w') ->
  passphrase <> "" /\ prompted w' = S (prompted w).
Proof.
  intros H. split; [|exact (PromptPassphrase_prompted _ _ _ H)].
  unfold PromptPassphrase in H.
  destruct (Run (inputs w)) as [r rest] eqn:HR. inversion H; subst.
  apply Run_validates in HR. intros ->. discriminate.
Qed.

Lemma PromptPassphrase_never_empty_witness :
  "hunter2" <> "" /\
  prompted {| inputs := []; prompted := 1; salts := salts sampleWorld;
              newKeys := newKeys sampleWorld |}
  = S (prompted sampleWorld).
Proof.
  apply (PromptPassphrase_never_empty sampleWorld
           {| inputs := []; prompted := 1; salts := salts sampleWorld;
              newKeys := newKeys sampleWorld |} "hunter2").
  reflexivity.
Defined.

(** ** What [AddKey] does to the info file and to the world *)

Lemma NewSalt_prompted (w w' : World) (r : result bytes) :
  NewSalt w = (r, w') -> prompted w' = prompted w /\ inputs w' = inputs w.
Proof.
  unfold NewSalt. destruct (salts w) as [|r0 rest]; intros H; inversion H;
    split; reflexivity.
Qed.

Section AddKeyCases.

Variable X : Provider.

(** The outcomes of [addKeyPassphrase]: an error with the info file as it
    was, or the steps of a success. *)
Lemma addKeyPassphrase_inv (mk : bytes) (s s' : State) (r : string * error) :
  addKeyPassphrase X mk s = (r, s') ->
  (exists e, snd r = Some e /\ info s' = info s) \/
  (exists p w1 salt w2 wk h wrapped,
     r = ("", None) /\
     PromptPassphrase (world s) = (Ok p, w1) /\
     snd (GetMasterKeyWithPassphrase X (info s) p) <> None /\
     NewSalt w1 = (Ok salt, w2) /\
     KeyFromPassphrase X p salt = Ok (wk, h) /\
     WrapKey X wk mk = Ok wrapped /\
     s' = {| info := setKeys (info s)
                       (Keys (info s) ++ [passphraseEntry salt h wrapped]);
             world := w2 |}).
Proof.
  unfold addKeyPassphrase. run.
  destruct (PromptPassphrase (world s)) as [[p|e] w1] eqn:HP; cbn.
  2:{ intros H; inversion H; subst. left; eexists; split; reflexivity. }
  destruct (GetMasterKeyWithPassphrase X (info s) p) as [[[? ?] ?] [e|]] eqn:HG;
    cbn.
  2:{ intros H; inversion H; subst. left; eexists; split; reflexivity. }
  destruct (NewSalt w1) as [[salt|e'] w2] eqn:HN; cbn.
  2:{ intros H; inversion H; subst. left; eexists; split; reflexivity. }
  destruct (KeyFromPassphrase X p salt) as [[wk h]|e'] eqn:HK; cbn.
  2:{ intros H; inversion H; subst. left; eexists; split; reflexivity. }
  destruct (WrapKey X wk mk) as [wrapped|e'] eqn:HW; cbn.
  2:{ intros H; inversion H; subst. left; eexists; split; reflexivity. }
  rewrite AddPassphrase_spec; cbn.
  destruct (acceptsPassphrase X (info s) salt h wrapped) eqn:HA; cbn;
    intros H; inversion H; subst.
  - left; eexists; split; reflexivity.
  - right. exists p, w1, salt, w2, wk, h, wrapped.
    split; [reflexivity|]. split; [reflexivity|].
    split; [rewrite HG; cbn; discriminate|].
    repeat split; assumption.
Qed.

Lemma addKeyGPG_inv (mk : bytes) (gpgKey : string) (s s' : State)
  (r : string * error) :
  addKeyGPG X mk gpgKey s = (r, s') ->
  world s' = world s /\
  ((exists e, snd r = Some e /\ info s' = info s /\
              fst r <> DuplicateFactor) \/
   (exists wrapped,
      r = ("", None) /\
      GPGEncrypt X mk gpgKey = Ok wrapped /\
      info s' = setKeys (info s) (Keys (info s) ++ [gpgEntry gpgKey wrapped]))).
Proof.
  unfold addKeyGPG.
  destruct (GPGEncrypt X mk gpgKey) as [wrapped|e] eqn:HE; cbn.
  2:{ intros H; inversion H; subst. split; [reflexivity|].
      left; eexists; repeat split; cbn. discriminate. }
  unfold bind. rewrite AddGPGWrappedKey_spec.
  destruct (acceptsGPGWrappedKey X (info s) gpgKey wrapped); cbn;
    intros H; inversion H; subst; (split; [reflexivity|]).
  - left; eexists; repeat split; cbn. discriminate.
  - right. exists wrapped. repeat split.
Qed.

(** The outcomes of [AddKey]: an error with the info file as it was, or one
    entry appended, which carries the GPG key id that was given. *)
Lemma AddKey_inv (mk : bytes) (gpgKey : string) (s s' : State)
  (r : string * error) :
  AddKey X mk gpgKey s = (r, s') ->
  (exists e, snd r = Some e /\ info s' = info s) \/
  (exists k,
     r = ("", None) /\ Key.GPGKey k = gpgKey /\
     info s' = setKeys (info s) (Keys (info s) ++ [k])).
Proof.
  unfold AddKey. destruct (String.eqb_spec gpgKey "") as [->|Hne].
  - intros H. apply addKeyPassphrase_inv in H
      as [H|(p & w1 & salt & w2 & wk & h & wrapped & -> & _ & _ & _ & _ & _ & ->)].
    + now left.
    + right. exists (passphraseEntry salt h wrapped). repeat split.
  - run. destruct (existsb _ _).
    + intros H; inversion H; subst. left; eexists; split; reflexivity.
    + intros H. apply addKeyGPG_inv in H as [_ [(e & He & Hi & _)|(wrapped & -> & _ & Hi)]].
      * left; now exists e.
      * right. exists (gpgEntry gpgKey wrapped). repeat split. exact Hi.
Qed.

End AddKeyCases.

(** X2. [AddKey] either succeeds or changes nothing in the info file: when it
    returns an error, whichever step failed, the info file is the one it was
    given. *)
Theorem AddKey_error_keeps_info (X : Provider) (masterKey : bytes)
  (gpgKey errMessage e : string) (s s' : State) :
  AddKey X masterKey gpgKey s = ((errMessage, Some e), s') ->
  info s' = info s.
Proof.
  intros H. apply AddKey_inv in H as [(e' & _ & Hi)|(k & Hr & _)].
  - exact Hi.
  - discriminate.
Qed.

Lemma AddKey_error_keeps_info_witness :
  AddKey refProvider [x11; x22; x33] "nobody"
    {| info := legacyInfo; world := sampleWorld |}
  = (("Error encrypting the master key with GPG", Some "no public key"),
     {| info := legacyInfo; world := sampleWorld |}) /\
  info {| info := legacyInfo; world := sampleWorld |} = legacyInfo.
Proof.
  split; [reflexivity|].
  apply (AddKey_error_keeps_info refProvider [x11; x22; x33] "nobody"
           "Error encrypting the master key with GPG" "no public key"
           {| info := legacyInfo; world := sampleWorld |}
           {| info := legacyInfo; world := sampleWorld |}).
  reflexivity.
Defined.

(** X3. A successful [AddKey] appends exactly one entry to the keys, after the
    entries that were there, which it keeps in order; the new entry carries
    the GPG key id that was given (none for a passphrase); the version and the
    legacy fields are untouched; and the error message is empty. *)
Theorem AddKey_success_appends_one (X : Provider) (masterKey : bytes)
  (gpgKey errMessage : string) (s s' : State) :
  AddKey X masterKey gpgKey s = ((errMessage, None), s') ->
  exists k,
    Keys (info s') = (Keys (info s) ++ [k])%list /\
    Key.GPGKey k = gpgKey /\
    errMessage = "" /\
    Version (info s') = Version (info s) /\
    Salt (info s') = Salt (info s) /\
    ConfirmationHash (info s') = ConfirmationHash (info s).
Proof.
  intros H. apply AddKey_inv in H as [(e' & He & _)|(k & Hr & Hk & Hi)].
  - discriminate.
  - inversion Hr; subst. exists k. rewrite Hi. repeat split.
Qed.

Lemma AddKey_success_appends_one_witness :
  exists k,
    Keys (setKeys legacyInfo
            [gpgEntry "ABC" [x02; x05]; gpgEntry "alice" [x01; x11; x22; x33]])
    = (Keys legacyInfo ++ [k])%list /\
    Key.GPGKey k = "alice" /\
    "" = "" /\
    Version (setKeys legacyInfo
               [gpgEntry "ABC" [x02; x05]; gpgEntry "alice" [x01; x11; x22; x33]])
    = Version legacyInfo /\
    Salt legacyInfo = Salt legacyInfo /\
    ConfirmationHash legacyInfo = ConfirmationHash legacyInfo.
Proof.
  apply (AddKey_success_appends_one refProvider [x11; x22; x33] "alice" ""
           {| info := legacyInfo; world := sampleWorld |}
           {| info := setKeys legacyInfo
                        [gpgEntry "ABC" [x02; x05];
                         gpgEntry "alice" [x01; x11; x22; x33]];
              world := sampleWorld |}).
  reflexivity.
Defined.

(** X4. The same GPG key cannot be added twice: after [AddKey] succeeded for a
    GPG key id, [AddKey] for an id that equals it up to ASCII case fails as a
    duplicate and changes nothing, whatever master key it is given and
    whatever happened to the world in between. *)
Theorem AddKey_GPG_twice_rejected (X : Provider) (masterKey masterKey' : bytes)
  (gpgKey gpgKey' : string) (s s' : State) (w : World) :
  lowerRespectsASCIICase X ->
  gpgKey' <> "" ->
  eqASCIICase gpgKey gpgKey' ->
  AddKey X masterKey gpgKey s = (("", None), s') ->
  AddKey X masterKey' gpgKey' {| info := info s'; world := w |} =
    ((DuplicateFactor,
      Some "This GPG key has already been added to the repository"),
     {| info := info s'; world := w |}).
Proof.
  intros HX Hne Heq Hadd.
  apply AddKey_inv in Hadd as [(e & He & _)|(k & _ & Hk & Hi)];
    [discriminate|].
  unfold AddKey. apply String.eqb_neq in Hne. rewrite Hne. run.
  rewrite (existsb_ToLower X gpgKey'); [reflexivity | exact HX |].
  exists k. split.
  - rewrite Hi. cbn. apply in_or_app. right. now left.
  - now rewrite Hk.
Qed.

Lemma AddKey_GPG_twice_rejected_witness :
  AddKey refProvider [x44] "ALICE"
    {| info := setKeys legacyInfo
                 [gpgEntry "ABC" [x02; x05];
                  gpgEntry "alice" [x01; x11; x22; x33]];
       world := interruptedWorld |} =
    ((DuplicateFactor,
      Some "This GPG key has already been added to the repository"),
     {| info := setKeys legacyInfo
                  [gpgEntry "ABC" [x02; x05];
                   gpgEntry "alice" [x01; x11; x22; x33]];
        world := interruptedWorld |}).
Proof.
  apply (AddKey_GPG_twice_rejected refProvider [x11; x22; x33] [x44]
           "alice" "ALICE"
           {| info := legacyInfo; world := sampleWorld |}
           {| info := setKeys legacyInfo
                        [gpgEntry "ABC" [x02; x05];
                         gpgEntry "alice" [x01; x11; x22; x33]];
              world := sampleWorld |}
           interruptedWorld refProvider_lower);
    [discriminate | reflexivity | reflexivity].
Defined.

(** X5. The entry that a successful [AddKey] appends for a passphrase is
    sealed with that passphrase: its confirmation hash is the one derived from
    the passphrase the user submitted and the entry's salt, which is the salt
    drawn during the call, and unwrapping its wrapped key with the key so
    derived gives back the master key that was passed in. *)
Theorem AddKey_passphrase_entry_sealed (X : Provider) (masterKey : bytes)
  (s s' : State) :
  wrapRoundTrip X ->
  AddKey X masterKey "" s = (("", None), s') ->
  exists passphrase w1 k wrappingKey,
    PromptPassphrase (world s) = (Ok passphrase, w1) /\
    NewSalt w1 = (Ok (Key.Salt k), world s') /\
    Keys (info s') = (Keys (info s) ++ [k])%list /\
    KeyFromPassphrase X passphrase (Key.Salt k)
      = Ok (wrappingKey, Key.ConfirmationHash k) /\
    UnwrapKey X wrappingKey (Key.MasterKey k) = Ok masterKey /\
    tryPassphraseEntry X passphrase k = Some (Ok masterKey).
Proof.
  intros HRT Hadd. unfold AddKey in Hadd; cbn in Hadd.
  apply addKeyPassphrase_inv in Hadd
    as [(e & He & _)|(p & w1 & salt & w2 & wk & h & wrapped
                      & _ & HP & _ & HN & HK & HW & ->)];
    [discriminate|].
  exists p, w1, (passphraseEntry salt h wrapped), wk. cbn.
  repeat split; try assumption.
  - exact (HRT _ _ _ HW).
  - unfold tryPassphraseEntry; cbn.
    rewrite HK, ConstantTimeCompare_refl; cbn. now rewrite (HRT _ _ _ HW).
Qed.

Lemma AddKey_passphrase_entry_sealed_witness :
  exists passphrase w1 k wrappingKey,
    PromptPassphrase sampleWorld = (Ok passphrase, w1) /\
    NewSalt w1 = (Ok (Key.Salt k), rotatedWorld) /\
    Keys rotatedInfo = (Keys (setVersion (clearLegacy legacyInfo) 3) ++ [k])%list /\
    KeyFromPassphrase refProvider passphrase (Key.Salt k)
      = Ok (wrappingKey, Key.ConfirmationHash k) /\
    UnwrapKey refProvider wrappingKey (Key.MasterKey k)
      = Ok [x68; x75; x6e; x74; x65; x72; x32; x01; x02] /\
    tryPassphraseEntry refProvider passphrase k
      = Some (Ok [x68; x75; x6e; x74; x65; x72; x32; x01; x02]).
Proof.
  apply (AddKey_passphrase_entry_sealed refProvider
           [x68; x75; x6e; x74; x65; x72; x32; x01; x02]
           {| info := setVersion (clearLegacy legacyInfo) 3; world := sampleWorld |}
           {| info := rotatedInfo; world := rotatedWorld |}
           refProvider_roundTrip).
  reflexivity.
Defined.

(** X6. The GPG path of [AddKey] is silent: with a non-empty GPG key id the
    world after the call is the world before it, so no prompt is shown, no
    input consumed and nothing drawn from the random source, whether the call
    succeeds or fails. *)
Theorem AddKey_GPG_leaves_world (X : Provider) (masterKey : bytes)
  (gpgKey : string) (s : State) :
  gpgKey <> "" ->
  world (snd (AddKey X masterKey gpgKey s)) = world s.
Proof.
  intros Hne. unfold AddKey. apply String.eqb_neq in Hne. rewrite Hne. run.
  destruct (existsb _ _); [reflexivity|].
  destruct (addKeyGPG X masterKey gpgKey s) as [r s'] eqn:H.
  now apply addKeyGPG_inv in H as [Hw _].
Qed.

Lemma AddKey_GPG_leaves_world_witness :
  world (snd (AddKey refProvider [x11; x22; x33] "alice"
                {| info := legacyInfo; world := sampleWorld |}))
  = sampleWorld.
Proof.
  apply (AddKey_GPG_leaves_world refProvider [x11; x22; x33] "alice"
           {| info := legacyInfo; world := sampleWorld |}).
  discriminate.
Defined.

(** X7. The passphrase path of [AddKey] shows exactly one prompt, whatever the
    user answers and whether the call succeeds or fails, and it never draws a
    master key from the random source. *)
Theorem AddKey_passphrase_prompts_once (X : Provider) (masterKey : bytes)
  (s : State) :
  prompted (world (snd (AddKey X masterKey "" s))) = S (prompted (world s)) /\
  newKeys (world (snd (AddKey X masterKey "" s))) = newKeys (world s).
Proof.
  unfold AddKey; cbn. unfold addKeyPassphrase. run.
  destruct (PromptPassphrase (world s)) as [[p|e] w1] eqn:HP; cbn.
  2:{ unfold PromptPassphrase in HP. destruct (Run (inputs (world s))).
      inversion HP; subst; cbn. split; reflexivity. }
  assert (Hw1 : prompted w1 = S (prompted (world s))
                /\ newKeys w1 = newKeys (world s)).
  { unfold PromptPassphrase in HP. destruct (Run (inputs (world s))).
    inversion HP; subst; cbn. split; reflexivity. }
  destruct (GetMasterKeyWithPassphrase X (info s) p) as [[[? ?] ?] [e|]]; cbn;
    [|exact Hw1].
  assert (Hw2 : forall r w2, NewSalt w1 = (r, w2) ->
                  prompted w2 = S (prompted (world s))
                  /\ newKeys w2 = newKeys (world s)).
  { intros r w2. unfold NewSalt. destruct (salts w1); intros H; inversion H;
      subst; cbn; exact Hw1. }
  destruct (NewSalt w1) as [[salt|e'] w2] eqn:HN; cbn;
    [|exact (Hw2 _ _ eq_refl)].
  specialize (Hw2 _ _ eq_refl).
  destruct (KeyFromPassphrase X p salt) as [[wk h]|e']; cbn; [|exact Hw2].
  destruct (WrapKey X wk masterKey) as [wrapped|e']; cbn; [|exact Hw2].
  rewrite AddPassphrase_spec; cbn.
  destruct (acceptsPassphrase X (info s) salt h wrapped); cbn; exact Hw2.
Qed.

(** ** Further properties of the migration *)

Lemma upgradeInfoFileV1_error_keeps_info (X : Provider) (s s' : State)
  (errMessage e : string) :
  upgradeInfoFileV1 X s = ((errMessage, Some e), s') -> info s' = info s.
Proof.
  unfold upgradeInfoFileV1. run.
  destruct ((len (Salt (info s)) >? 0) && (len (ConfirmationHash (info s)) >? 0));
    [|discriminate].
  destruct (PromptPassphrase (world s)) as [[p|e0] w1]; cbn;
    [|intros H; inversion H; reflexivity].
  destruct (KeyFromPassphrase X p (Salt (info s))) as [[mk h]|e0]; cbn;
    [|intros H; inversion H; reflexivity].
  destruct (ConstantTimeCompare (ConfirmationHash (info s)) h =? 0); cbn;
    [intros H; inversion H; reflexivity|].
  destruct (NewSalt w1) as [[salt|e'] w2]; cbn;
    [|intros H; inversion H; reflexivity].
  destruct (KeyFromPassphrase X p salt) as [[wk h']|e']; cbn;
    [|intros H; inversion H; reflexivity].
  destruct (WrapKey X wk mk) as [wrapped|e']; cbn;
    [|intros H; inversion H; reflexivity].
  rewrite AddPassphrase_spec; cbn.
  destruct (acceptsPassphrase X (info s) salt h' wrapped); cbn;
    intros H; inversion H; reflexivity.
Qed.

(** The three ways [UpgradeInfoFile] ends: the guard's error, an error of the
    upgrade from version 1, or the version set to 3. *)
Lemma UpgradeInfoFile_inv (X : Provider) (s s' : State) (r : string * error) :
  UpgradeInfoFile X s = (r, s') ->
  (exists e, snd r = Some e /\ info s' = info s) \/
  (r = ("", None) /\ (Version (info s) = 1 \/ Version (info s) = 2) /\
   Version (info s') = 3).
Proof.
  unfold UpgradeInfoFile. run.
  destruct (Z.eqb_spec (Version (info s)) 1) as [E1|N1]; cbn.
  - rewrite E1; cbn.
    destruct (upgradeInfoFileV1 X s) as [[msg [e|]] s1] eqn:HV; cbn.
    + intros H; inversion H; subst. left. exists e. split; [reflexivity|].
      exact (upgradeInfoFileV1_error_keeps_info X s s' msg e HV).
    + unfold updateVersion. run. intros H; inversion H; subst.
      right. repeat split. now left.
  - destruct (Z.eqb_spec (Version (info s)) 2) as [E2|N2]; cbn.
    + destruct (Z.ltb_spec (Version (info s)) 2); [lia|].
      unfold updateVersion. run. intros Hr; inversion Hr; subst.
      right. repeat split. now right.
    + intros H; inversion H; subst. left. eexists. split; reflexivity.
Qed.

(** X8. A migration that fails leaves the info file untouched: when
    [UpgradeInfoFile] returns an error (unsupported version, interrupted
    prompt, wrong passphrase, or a failure of the random source, of the
    derivation, of the wrapping or of the info file), the version, the keys and
    the legacy fields are what they were. *)
Theorem UpgradeInfoFile_error_keeps_info (X : Provider) (s s' : State)
  (errMessage e : string) :
  UpgradeInfoFile X s = ((errMessage, Some e), s') ->
  info s' = info s.
Proof.
  intros H. apply UpgradeInfoFile_inv in H as [(e' & _ & Hi)|(Hr & _)].
  - exact Hi.
  - discriminate.
Qed.

Lemma UpgradeInfoFile_error_keeps_info_witness :
  UpgradeInfoFile refProvider {| info := legacyInfo; world := interruptedWorld |}
  = (("Error getting passphrase", Some "^C"),
     {| info := legacyInfo;
        world := {| inputs := []; prompted := 1; salts := salts interruptedWorld;
                    newKeys := newKeys interruptedWorld |} |}) /\
  info {| info := legacyInfo;
          world := {| inputs := []; prompted := 1;
                      salts := salts interruptedWorld;
                      newKeys := newKeys interruptedWorld |} |}
  = legacyInfo.
Proof.
  split; [reflexivity|].
  apply (UpgradeInfoFile_error_keeps_info refProvider
           {| info := legacyInfo; world := interruptedWorld |}
           {| info := legacyInfo;
              world := {| inputs := []; prompted := 1;
                          salts := salts interruptedWorld;
                          newKeys := newKeys interruptedWorld |} |}
           "Error getting passphrase" "^C").
  reflexivity.
Defined.

(** X9. A migration can be run once: after [UpgradeInfoFile] succeeded the
    version is 3, and invoking it again on the result fails with the error of
    an unsupported version and changes nothing. *)
Theorem UpgradeInfoFile_succeeds_once (X : Provider) (s s' : State)
  (errMessage : string) :
  UpgradeInfoFile X s = ((errMessage, None), s') ->
  Version (info s') = 3 /\
  UpgradeInfoFile X s' =
    ((UnsupportedVersion,
      Some "This repository has already been upgraded or is using an unsupported version"),
     s').
Proof.
  intros H. apply UpgradeInfoFile_inv in H as [(e' & He & _)|(_ & _ & H3)];
    [discriminate|].
  split; [exact H3|]. apply UpgradeInfoFile_guard; lia.
Qed.

Lemma UpgradeInfoFile_succeeds_once_witness :
  Version rotatedInfo = 3 /\
  UpgradeInfoFile refProvider {| info := rotatedInfo; world := rotatedWorld |} =
    ((UnsupportedVersion,
      Some "This repository has already been upgraded or is using an unsupported version"),
     {| info := rotatedInfo; world := rotatedWorld |}).
Proof.
  apply (UpgradeInfoFile_succeeds_once refProvider
           {| info := legacyInfo; world := sampleWorld |}
           {| info := rotatedInfo; world := rotatedWorld |} "").
  reflexivity.
Defined.

(** X10. The upgrade from version 2 needs nobody: it succeeds whatever the
    info file holds, after it the version is 3 and the keys and legacy fields
    are what they were, and the world is as it was (no prompt, nothing drawn
    from the random source). *)
Theorem UpgradeInfoFile_from_version_2 (X : Provider) (s : State) :
  Version (info s) = 2 ->
  exists s',
    UpgradeInfoFile X s = (("", None), s') /\
    Version (info s') = 3 /\
    Keys (info s') = Keys (info s) /\
    Salt (info s') = Salt (info s) /\
    ConfirmationHash (info s') = ConfirmationHash (info s) /\
    world s' = world s.
Proof.
  intros H2. exists {| info := setVersion (info s) 3; world := world s |}.
  split; [|repeat split].
  unfold UpgradeInfoFile, updateVersion. run. now rewrite H2.
Qed.

Lemma UpgradeInfoFile_from_version_2_witness :
  exists s',
    UpgradeInfoFile refProvider
      {| info := {| Version := 2; Salt := Salt legacyInfo;
                    ConfirmationHash := ConfirmationHash legacyInfo;
                    Keys := Keys legacyInfo |};
         world := interruptedWorld |}
    = (("", None), s') /\
    Version (info s') = 3 /\
    Keys (info s') = Keys legacyInfo /\
    Salt (info s') = Salt legacyInfo /\
    ConfirmationHash (info s') = ConfirmationHash legacyInfo /\
    world s' = interruptedWorld.
Proof.
  apply (UpgradeInfoFile_from_version_2 refProvider
           {| info := {| Version := 2; Salt := Salt legacyInfo;
                         ConfirmationHash := ConfirmationHash legacyInfo;
                         Keys := Keys legacyInfo |};
              world := interruptedWorld |}).
  reflexivity.
Defined.

(** X11. A wrong passphrase stops the migration before anything is generated:
    on a version 1 info file with the legacy fields populated, when the
    passphrase the user submits does not derive to the legacy confirmation
    hash (or its derivation fails), [UpgradeInfoFile] fails with "Cannot
    unlock the repository" / "Invalid passphrase", the info file stays at
    version 1 as it was, and the random source is not drawn from. *)
Theorem UpgradeInfoFile_wrong_passphrase (X : Provider) (s : State)
  (passphrase : string) (w1 : World) :
  Version (info s) = 1 ->
  Salt (info s) <> [] -> ConfirmationHash (info s) <> [] ->
  PromptPassphrase (world s) = (Ok passphrase, w1) ->
  (forall masterKey, KeyFromPassphrase X passphrase (Salt (info s))
                     <> Ok (masterKey, ConfirmationHash (info s))) ->
  UpgradeInfoFile X s =
    ((InvalidCredentials, Some "Invalid passphrase"),
     {| info := info s; world := w1 |}) /\
  salts w1 = salts (world s).
Proof.
  intros H1 HS HC HP Hwrong. split; [|exact (PromptPassphrase_salts _ _ _ HP)].
  unfold UpgradeInfoFile. run. rewrite H1; cbn.
  unfold upgradeInfoFileV1. run.
  rewrite (len_populated _ HS), (len_populated _ HC); cbn.
  rewrite HP; cbn.
  destruct (KeyFromPassphrase X passphrase (Salt (info s))) as [[mk h]|e] eqn:HK;
    cbn; [|reflexivity].
  destruct (ConstantTimeCompare (ConfirmationHash (info s)) h =? 0) eqn:HCmp;
    cbn; [reflexivity|].
  apply ConstantTimeCompare_nonzero in HCmp. subst h.
  now destruct (Hwrong mk).
Qed.

Lemma UpgradeInfoFile_wrong_passphrase_witness :
  UpgradeInfoFile refProvider
    {| info := legacyInfo;
       world := {| inputs := [Line "letmein"]; prompted := 0;
                   salts := [Ok [x0a; x0b]]; newKeys := [] |} |} =
    ((InvalidCredentials, Some "Invalid passphrase"),
     {| info := legacyInfo;
        world := {| inputs := []; prompted := 1;
                    salts := [Ok [x0a; x0b]]; newKeys := [] |} |}) /\
  [Ok [x0a; x0b]] = [Ok [x0a; x0b]].
Proof.
  apply (UpgradeInfoFile_wrong_passphrase refProvider
           {| info := legacyInfo;
              world := {| inputs := [Line "letmein"]; prompted := 0;
                          salts := [Ok [x0a; x0b]]; newKeys := [] |} |}
           "letmein"
           {| inputs := []; prompted := 1; salts := [Ok [x0a; x0b]];
              newKeys := [] |});
    try reflexivity; cbn; discriminate.
Defined.

(** ** Creation, and unlocking what was created or added *)

(** X12. [NewInfoFile] never hands out an info file without a key: an info
    file it returns holds exactly one entry more than a fresh info file, the
    entry carries the GPG key id that was asked for (none for a passphrase),
    the version and legacy fields are those of a fresh info file, and the
    error returned with it is nil. *)
Theorem NewInfoFile_info_has_its_key (X : Provider) (gpgKey errMessage : string)
  (err : error) (w w' : World) (i i0 : InfoFile) :
  infofile.New = Ok i0 ->
  NewInfoFile X gpgKey w = ((Some i, errMessage, err), w') ->
  exists k,
    Keys i = (Keys i0 ++ [k])%list /\
    Key.GPGKey k = gpgKey /\
    Version i = Version i0 /\
    Salt i = Salt i0 /\
    ConfirmationHash i = ConfirmationHash i0 /\
    errMessage = "" /\ err = None.
Proof.
  intros HNew. unfold NewInfoFile. rewrite HNew.
  destruct (NewKey w) as [[mk|e] w1]; [|discriminate].
  destruct (AddKey X mk gpgKey {| info := i0; world := w1 |})
    as [[msg [e|]] s] eqn:HAdd; [discriminate|].
  intros H; inversion H; subst.
  apply AddKey_inv in HAdd as [(e & He & _)|(k & _ & Hk & Hi)];
    [discriminate|].
  exists k. rewrite Hi. repeat split. exact Hk.
Qed.

Lemma NewInfoFile_info_has_its_key_witness :
  exists k,
    Keys {| Version := 3; Salt := []; ConfirmationHash := [];
            Keys := [gpgEntry "alice" [x01; x11; x22; x33]] |}
    = (Keys {| Version := 3; Salt := []; ConfirmationHash := []; Keys := [] |}
       ++ [k])%list /\
    Key.GPGKey k = "alice" /\
    3 = Version {| Version := 3; Salt := []; ConfirmationHash := [];
                   Keys := [] |} /\
    @nil byte = [] /\ @nil byte = [] /\ "" = "" /\ @None string = None.
Proof.
  apply (NewInfoFile_info_has_its_key refProvider "alice" "" None sampleWorld
           {| inputs := inputs sampleWorld; prompted := 0;
              salts := salts sampleWorld; newKeys := [] |}
           {| Version := 3; Salt := []; ConfirmationHash := [];
              Keys := [gpgEntry "alice" [x01; x11; x22; x33]] |}
           {| Version := 3; Salt := []; ConfirmationHash := []; Keys := [] |});
    reflexivity.
Defined.

Section UnlockAfterAdd.

Variable X : Provider.

(** A passphrase entry that matches, behind entries that the passphrase
    skips, is the one that unlocks. *)
Lemma unlockWithPassphrase_last (p : string) (ks : list InfoFileKey)
  (k : InfoFileKey) (mk : bytes) :
  Forall (fun k' => Key.GPGKey k' <> "" \/ tryPassphraseEntry X p k' = None) ks ->
  Key.GPGKey k = "" ->
  tryPassphraseEntry X p k = Some (Ok mk) ->
  unlockWithPassphrase X p (ks ++ [k]) = (mk, passphraseKeyId X k, "", None).
Proof.
  intros Hks Hk Htry. induction Hks as [|k' ks Hk' _ IH]; cbn.
  - now rewrite Hk, Htry.
  - destruct Hk' as [Hgpg|Hskip].
    + apply String.eqb_neq in Hgpg. now rewrite Hgpg.
    + destruct (String.eqb (Key.GPGKey k') ""); [now rewrite Hskip | exact IH].
Qed.

Lemma unlockWithGPG_passphrase_only (ks : list InfoFileKey) :
  Forall (fun k => Key.GPGKey k = "") ks ->
  unlockWithGPG X ks = ([], "", InvalidCredentials, Some "Invalid GPG key").
Proof.
  intros H. apply unlockWithGPG_none.
  apply Forall_impl with (2 := H). intros k Hk. unfold tryGPGEntry.
  now rewrite Hk.
Qed.

End UnlockAfterAdd.

(** X13. What [NewInfoFile] creates with a passphrase, [GetMasterKey] unlocks
    with that passphrase: given the round trip of the provider, when
    [NewInfoFile] with an empty GPG key returns an info file, a later
    [GetMasterKey] on it at whose prompt the user submits the same passphrase
    returns, with a nil error, the master key that [crypto.NewKey] generated
    at the creation. ([keys.GetMasterKeyWithGPG] and
    [keys.GetMasterKeyWithPassphrase] are the ones modelled from the
    specification.) *)
Theorem NewInfoFile_then_GetMasterKey (X : Provider) (w w' : World)
  (i : InfoFile) (errMessage : string) (err : error) :
  wrapRoundTrip X ->
  NewInfoFile X "" w = ((Some i, errMessage, err), w') ->
  exists masterKey w1 passphrase w2,
    NewKey w = (Ok masterKey, w1) /\
    PromptPassphrase w1 = (Ok passphrase, w2) /\
    forall wu wu',
      PromptPassphrase wu = (Ok passphrase, wu') ->
      exists keyId,
        GetMasterKey X {| info := i; world := wu |} =
          ((masterKey, keyId, "", None), {| info := i; world := wu' |}).
Proof.
  intros HRT. unfold NewInfoFile. cbn.
  destruct (NewKey w) as [[mk|e] w1] eqn:HKey; [|discriminate].
  destruct (AddKey X mk "" {| info := _; world := w1 |})
    as [[msg [e|]] s] eqn:HAdd; [discriminate|].
  intros H; inversion H; subst.
  unfold AddKey in HAdd; cbn in HAdd.
  apply addKeyPassphrase_inv in HAdd
    as [(e & He & _)|(p & w2 & salt & w3 & wk & h & wrapped
                      & _ & HP & _ & HN & HK & HW & ->)];
    [discriminate|].
  cbn in HP. exists mk, w1, p, w2. repeat split; try assumption.
  intros wu wu' HPu. exists (passphraseKeyId X (passphraseEntry salt h wrapped)).
  unfold GetMasterKey, GetMasterKeyWithGPG, GetMasterKeyWithPassphrase. run.
  rewrite HPu; cbn.
  unfold tryPassphraseEntry; cbn.
  rewrite HK, ConstantTimeCompare_refl; cbn. now rewrite (HRT _ _ _ HW).
Qed.

Lemma NewInfoFile_then_GetMasterKey_witness :
  exists masterKey w1 passphrase w2,
    NewKey sampleWorld = (Ok masterKey, w1) /\
    PromptPassphrase w1 = (Ok passphrase, w2) /\
    forall wu wu',
      PromptPassphrase wu = (Ok passphrase, wu') ->
      exists keyId,
        GetMasterKey refProvider
          {| info := {| Version := 3; Salt := []; ConfirmationHash := [];
                        Keys := [passphraseEntry [x0a; x0b]
                                   [x0b; x0a; x68; x75; x6e; x74; x65; x72; x32]
                                   [x33; x22; x11]] |};
             world := wu |} =
          ((masterKey, keyId, "", None),
           {| info := {| Version := 3; Salt := []; ConfirmationHash := [];
                         Keys := [passphraseEntry [x0a; x0b]
                                    [x0b; x0a; x68; x75; x6e; x74; x65; x72; x32]
                                    [x33; x22; x11]] |};
              world := wu' |}).
Proof.
  apply (NewInfoFile_then_GetMasterKey refProvider sampleWorld
           {| inputs := []; prompted := 1; salts := []; newKeys := [] |}
           {| Version := 3; Salt := []; ConfirmationHash := [];
              Keys := [passphraseEntry [x0a; x0b]
                         [x0b; x0a; x68; x75; x6e; x74; x65; x72; x32]
                         [x33; x22; x11]] |}
           "" None refProvider_roundTrip).
  reflexivity.
Defined.

(** X14. A passphrase cannot be added twice: after [AddKey] succeeded with a
    passphrase that none of the earlier passphrase entries matched, [AddKey]
    with an empty GPG key, when the user submits the same passphrase again,
    fails as a duplicate and leaves the info file with the one entry that the
    first call appended. ([keys.GetMasterKeyWithPassphrase] is the one
    modelled from the specification.) *)
Theorem AddKey_passphrase_twice_rejected (X : Provider)
  (masterKey masterKey' : bytes) (s s' : State) (passphrase : string)
  (w1 wu wu' : World) :
  wrapRoundTrip X ->
  PromptPassphrase (world s) = (Ok passphrase, w1) ->
  Forall (fun k => Key.GPGKey k <> ""
                   \/ tryPassphraseEntry X passphrase k = None)
         (Keys (info s)) ->
  AddKey X masterKey "" s = (("", None), s') ->
  PromptPassphrase wu = (Ok passphrase, wu') ->
  AddKey X masterKey' "" {| info := info s'; world := wu |} =
    ((DuplicateFactor,
      Some "This passphrase has already been added to the repository"),
     {| info := info s'; world := wu' |}).
Proof.
  intros HRT HP Hskip Hadd HPu.
  unfold AddKey in Hadd; cbn in Hadd.
  apply addKeyPassphrase_inv in Hadd
    as [(e & He & _)|(p & w2 & salt & w3 & wk & h & wrapped
                      & _ & HP' & _ & HN & HK & HW & ->)];
    [discriminate|].
  rewrite HP in HP'. inversion HP'; subst p w2. cbn.
  unfold AddKey; cbn. unfold addKeyPassphrase. run. rewrite HPu; cbn.
  unfold GetMasterKeyWithPassphrase; cbn.
  rewrite (unlockWithPassphrase_last X passphrase (Keys (info s))
             (passphraseEntry salt h wrapped) masterKey Hskip eq_refl).
  - reflexivity.
  - unfold tryPassphraseEntry; cbn.
    rewrite HK, ConstantTimeCompare_refl; cbn. now rewrite (HRT _ _ _ HW).
Qed.

Lemma AddKey_passphrase_twice_rejected_witness :
  AddKey refProvider [x44] "" {| info := rotatedInfo; world := sampleWorld |} =
    ((DuplicateFactor,
      Some "This passphrase has already been added to the repository"),
     {| info := rotatedInfo;
        world := {| inputs := []; prompted := 1; salts := salts sampleWorld;
                    newKeys := newKeys sampleWorld |} |}).
Proof.
  apply (AddKey_passphrase_twice_rejected refProvider
           [x68; x75; x6e; x74; x65; x72; x32; x01; x02] [x44]
           {| info := setVersion (clearLegacy legacyInfo) 3; world := sampleWorld |}
           {| info := rotatedInfo; world := rotatedWorld |}
           "hunter2"
           {| inputs := []; prompted := 1; salts := salts sampleWorld;
              newKeys := newKeys sampleWorld |}
           sampleWorld
           {| inputs := []; prompted := 1; salts := salts sampleWorld;
              newKeys := newKeys sampleWorld |}
           refProvider_roundTrip);
    try reflexivity.
  constructor; [left; discriminate | constructor].
Defined.

Lemma lowerASCII_nonempty (s : string) :
  mapString lowerASCII s = "" -> s = "".
Proof. destruct s; [reflexivity | discriminate]. Qed.

(** X15. Passphrase entries never stand in the way of a GPG key: in an info
    file whose entries all have an empty GPG key id, [AddKey] with a non-empty
    ASCII key id is never rejected as a duplicate; it goes on to wrap the
    master key with GPG. *)
Theorem AddKey_GPG_ignores_passphrase_entries (X : Provider)
  (masterKey : bytes) (gpgKey : string) (s : State) :
  gpgKey <> "" -> isASCII gpgKey = true ->
  Forall (fun k => Key.GPGKey k = "") (Keys (info s)) ->
  AddKey X masterKey gpgKey s = addKeyGPG X masterKey gpgKey s /\
  fst (fst (AddKey X masterKey gpgKey s)) <> DuplicateFactor.
Proof.
  intros Hne Hascii Hks.
  assert (HAdd : AddKey X masterKey gpgKey s = addKeyGPG X masterKey gpgKey s).
  { unfold AddKey. apply String.eqb_neq in Hne. rewrite Hne. run.
    rewrite existsb_ToLower_absent; [reflexivity|].
    intros k Hin Heq. rewrite Forall_forall in Hks. rewrite (Hks k Hin) in Heq.
    unfold ToLower in Heq. rewrite Hascii in Heq. cbn in Heq.
    symmetry in Heq. apply lowerASCII_nonempty in Heq.
    apply String.eqb_neq in Hne. contradiction. }
  split; [exact HAdd|]. rewrite HAdd.
  destruct (addKeyGPG X masterKey gpgKey s) as [r s'] eqn:H.
  apply addKeyGPG_inv in H as [_ [(e & _ & _ & Hmsg)|(wrapped & -> & _)]].
  - exact Hmsg.
  - cbn. discriminate.
Qed.

Lemma AddKey_GPG_ignores_passphrase_entries_witness :
  AddKey refProvider [x11; x22; x33] "alice"
    {| info := setKeys currentInfo
                 [passphraseEntry [x0a; x0b]
                    [x0b; x0a; x68; x75; x6e; x74; x65; x72; x32]
                    [x33; x22; x11]];
       world := sampleWorld |}
  = addKeyGPG refProvider [x11; x22; x33] "alice"
      {| info := setKeys currentInfo
                   [passphraseEntry [x0a; x0b]
                      [x0b; x0a; x68; x75; x6e; x74; x65; x72; x32]
                      [x33; x22; x11]];
         world := sampleWorld |} /\
  fst (fst (AddKey refProvider [x11; x22; x33] "alice"
              {| info := setKeys currentInfo
                           [passphraseEntry [x0a; x0b]
                              [x0b; x0a; x68; x75; x6e; x74; x65; x72; x32]
                              [x33; x22; x11]];
                 world := sampleWorld |}))
  <> DuplicateFactor.
Proof.
  apply (AddKey_GPG_ignores_passphrase_entries refProvider [x11; x22; x33]
           "alice"
           {| info := setKeys currentInfo
                        [passphraseEntry [x0a; x0b]
                           [x0b; x0a; x68; x75; x6e; x74; x65; x72; x32]
                           [x33; x22; x11]];
              world := sampleWorld |});
    [discriminate | reflexivity | repeat constructor].
Defined.

(** * Further properties of the unlock handler *)

Section HandlerInvariants.

Import UnlockHandler.

Variable NumberToString : PrimFloat.float -> string.
Variable Prvt_unlock : JSValue -> completion JSValue.
Variable Prvt_getIndex : JSValue -> completion JSValue.

(** Case analysis along the handler: the body, the guard, the answer of
    [Prvt.unlock], its three checks, the answer of [Prvt.getIndex]. *)
Ltac handler_cases req data result Hjson Hrej Hunlock Hmk Hkid Hidx :=
  unfold handler;
  destruct (json req) as [data|] eqn:Hjson; cbn;
  [ destruct (rejects NumberToString data) as [[|]|] eqn:Hrej; cbn;
    [ | destruct (Prvt_unlock (Get data "passphrase")) as [result|] eqn:Hunlock;
        cbn;
        [ destruct (ToBoolean result),
            (ToBoolean (Get result "masterKey")) eqn:Hmk,
            (ToBoolean (Get result "keyId")) eqn:Hkid; cbn;
          try (destruct (Prvt_getIndex (Get result "masterKey")) eqn:Hidx; cbn)
        | ]
      | ]
  | ].

(** A request that passes the guard has a truthy passphrase. *)
Lemma rejects_false (data : JSValue) :
  rejects NumberToString data = Normal false ->
  ToBoolean data = true /\
  looselyEqualsPassphrase NumberToString (Get data "type") = Normal true /\
  ToBoolean (Get data "passphrase") = true.
Proof.
  unfold rejects. destruct (ToBoolean data); cbn; [|discriminate].
  destruct (looselyEqualsPassphrase NumberToString (Get data "type"))
    as [[|]|x]; try discriminate.
  destruct (ToBoolean (Get data "passphrase")); cbn; [|discriminate].
  intros _. repeat split.
Qed.

(** X16. The handler queues the broadcast of [{message: 'unlocked'}] exactly
    when it returns a response, and then once: on every other outcome (a
    return without a value, an exception of [req.json()], of the guard, of
    [Prvt.unlock] or of [Prvt.getIndex], an invalid answer of [Prvt.unlock])
    nothing is queued. *)
Theorem handler_broadcasts_iff_response (req : Request) (st : Sandbox) :
  let (out, st') := handler NumberToString Prvt_unlock Prvt_getIndex req st in
  match out with
  | Normal (Some _) =>
      scheduled st'
      = (scheduled st ++ [JObject [("message", JString "unlocked")]])%list
  | _ => scheduled st' = scheduled st
  end.
Proof.
  handler_cases req data res Hjson Hrej Hunlock Hmk Hkid Hidx; reflexivity.
Qed.

(** X17. The handler calls [Prvt.unlock] at most once, and only for a request
    that passed the guard: its body is truthy, its [type] is loosely equal to
    ['passphrase'], and its [passphrase] is truthy, hence not the empty
    string; and the call is made with that [passphrase]. *)
Theorem handler_calls_unlock_at_most_once (req : Request) (st : Sandbox) :
  let st' := snd (handler NumberToString Prvt_unlock Prvt_getIndex req st) in
  unlockCalls st' = unlockCalls st \/
  exists data,
    json req = Normal data /\
    ToBoolean data = true /\
    looselyEqualsPassphrase NumberToString (Get data "type") = Normal true /\
    ToBoolean (Get data "passphrase") = true /\
    Get data "passphrase" <> JString "" /\
    unlockCalls st' = (unlockCalls st ++ [Get data "passphrase"])%list.
Proof.
  handler_cases req data res Hjson Hrej Hunlock Hmk Hkid Hidx;
    try (left; reflexivity); right; exists data;
    destruct (rejects_false data Hrej) as (Hd & Ht & Hp);
    (repeat split;
     [exact Hd | exact Ht | exact Hp
      | intros E; rewrite E in Hp; discriminate]).
Qed.

(** X18. The stores are written only with a valid answer of [Prvt.unlock]:
    after the handler, either the stores are what they were, or [Prvt.unlock]
    answered the body's passphrase with a result whose [masterKey] and [keyId]
    are truthy, and these two are what [stores.masterKey] and [stores.keyId]
    now hold. *)
Theorem handler_writes_stores_only_when_unlocked (req : Request) (st : Sandbox) :
  let st' := snd (handler NumberToString Prvt_unlock Prvt_getIndex req st) in
  stores st' = stores st \/
  exists data result,
    json req = Normal data /\
    Prvt_unlock (Get data "passphrase") = Normal result /\
    ToBoolean (Get result "masterKey") = true /\
    ToBoolean (Get result "keyId") = true /\
    masterKey (stores st') = Get result "masterKey" /\
    keyId (stores st') = Get result "keyId".
Proof.
  handler_cases req data res Hjson Hrej Hunlock Hmk Hkid Hidx;
    try (left; reflexivity); right; exists data, res;
    repeat split; assumption.
Qed.

(** X19. A response tells what was stored: when the handler returns a
    response, its body is [{keyId, type: 'passphrase'}] with the [keyId] now in
    the stores, the stores hold the [masterKey] and [keyId] that [Prvt.unlock]
    answered and the index that [Prvt.getIndex] gave for that master key, and
    the response carries no other field (the master key is not in it). *)
Theorem handler_response_matches_stores (req : Request) (st st' : Sandbox)
  (response : Response) :
  handler NumberToString Prvt_unlock Prvt_getIndex req st
    = (Normal (Some response), st') ->
  exists data result idx,
    json req = Normal data /\
    Prvt_unlock (Get data "passphrase") = Normal result /\
    Prvt_getIndex (Get result "masterKey") = Normal idx /\
    stores st' = {| masterKey := Get result "masterKey";
                    keyId := Get result "keyId"; index := idx |} /\
    response = JSONResponse (JObject [("keyId", keyId (stores st'));
                                      ("type", JString "passphrase")]).
Proof.
  handler_cases req data res Hjson Hrej Hunlock Hmk Hkid Hidx;
    intros H; inversion H; subst.
  eexists data, res, _. repeat split; eassumption.
Qed.

(** X20. A failure of [Prvt.getIndex] leaves the stores half written: when the
    body passes the guard and [Prvt.unlock] gives a valid result but
    [Prvt.getIndex] throws, the handler throws the same exception, no
    broadcast is queued, [stores.masterKey] and [stores.keyId] already hold
    the new values, and [stores.index] still holds the old index. *)
Theorem handler_getIndex_failure (req : Request) (st : Sandbox)
  (data result : JSValue) (x : string) :
  json req = Normal data ->
  rejects NumberToString data = Normal false ->
  Prvt_unlock (Get data "passphrase") = Normal result ->
  ToBoolean result = true ->
  ToBoolean (Get result "masterKey") = true ->
  ToBoolean (Get result "keyId") = true ->
  Prvt_getIndex (Get result "masterKey") = Throw x ->
  let (out, st') := handler NumberToString Prvt_unlock Prvt_getIndex req st in
  out = Throw x /\
  masterKey (stores st') = Get result "masterKey" /\
  keyId (stores st') = Get result "keyId" /\
  index (stores st') = index (stores st) /\
  scheduled st' = scheduled st.
Proof.
  intros Hjson Hrej Hunlock Hr Hmk Hkid Hidx. unfold handler.
  rewrite Hjson, Hrej, Hunlock, Hr, Hmk, Hkid; cbn. rewrite Hidx.
  repeat split.
Qed.

End HandlerInvariants.

Lemma handler_response_matches_stores_witness :
  exists data result idx,
    UnlockHandler.Normal passphraseBody = UnlockHandler.Normal data /\
    UnlockHandler.sampleUnlock (UnlockHandler.Get data "passphrase")
      = UnlockHandler.Normal result /\
    UnlockHandler.sampleGetIndex (UnlockHandler.Get result "masterKey")
      = UnlockHandler.Normal idx /\
    {| UnlockHandler.masterKey := UnlockHandler.JString "k";
       UnlockHandler.keyId := UnlockHandler.JString "id";
       UnlockHandler.index := UnlockHandler.JObject [] |}
    = {| UnlockHandler.masterKey := UnlockHandler.Get result "masterKey";
         UnlockHandler.keyId := UnlockHandler.Get result "keyId";
         UnlockHandler.index := idx |} /\
    UnlockHandler.JSONResponse
      (UnlockHandler.JObject
         [("keyId", UnlockHandler.JString "id");
          ("type", UnlockHandler.JString "passphrase")])
    = UnlockHandler.JSONResponse
        (UnlockHandler.JObject
           [("keyId", UnlockHandler.JString "id");
            ("type", UnlockHandler.JString "passphrase")]).
Proof.
  apply (handler_response_matches_stores UnlockHandler.sampleNumberToString
           UnlockHandler.sampleUnlock UnlockHandler.sampleGetIndex
           {| UnlockHandler.json := UnlockHandler.Normal passphraseBody |}
           UnlockHandler.lockedSandbox
           {| UnlockHandler.stores :=
                {| UnlockHandler.masterKey := UnlockHandler.JString "k";
                   UnlockHandler.keyId := UnlockHandler.JString "id";
                   UnlockHandler.index := UnlockHandler.JObject [] |};
              UnlockHandler.unlockCalls := [UnlockHandler.JString "hunter2"];
              UnlockHandler.scheduled :=
                [UnlockHandler.JObject
                   [("message", UnlockHandler.JString "unlocked")]] |}
           (UnlockHandler.JSONResponse
              (UnlockHandler.JObject
                 [("keyId", UnlockHandler.JString "id");
                  ("type", UnlockHandler.JString "passphrase")]))).
  reflexivity.
Defined.

Lemma handler_getIndex_failure_witness :
  let (out, st') :=
    UnlockHandler.handler UnlockHandler.sampleNumberToString
      UnlockHandler.sampleUnlock failingGetIndex
      {| UnlockHandler.json := UnlockHandler.Normal passphraseBody |}
      UnlockHandler.lockedSandbox in
  out = UnlockHandler.Throw "cannot decrypt the index" /\
  UnlockHandler.masterKey (UnlockHandler.stores st') = UnlockHandler.JString "k" /\
  UnlockHandler.keyId (UnlockHandler.stores st') = UnlockHandler.JString "id" /\
  UnlockHandler.index (UnlockHandler.stores st') = UnlockHandler.JUndefined /\
  UnlockHandler.scheduled st' = [].
Proof.
  apply (handler_getIndex_failure UnlockHandler.sampleNumberToString
           UnlockHandler.sampleUnlock failingGetIndex
           {| UnlockHandler.json := UnlockHandler.Normal passphraseBody |}
           UnlockHandler.lockedSandbox passphraseBody
           (UnlockHandler.JObject
              [("masterKey", UnlockHandler.JString "k");
               ("keyId", UnlockHandler.JString "id")])
           "cannot decrypt the index");
    reflexivity.
Defined.

(** * Properties of the stores *)

Section StoreProperties.

Import UnlockHandler.
Import AppStores.

(** X21. The user interface is read-only only on the server's word:
    [readOnly] is truthy exactly when the request for [/api/info] succeeded
    with an object that has a truthy [readOnly] property. In particular it is
    falsy when the request fails (the store keeps its initial [{}]), and when
    the answer is not an object. *)
Theorem readOnly_truthy_iff (response : completion JSValue) :
  ToBoolean (readOnly (appInfo response)) = true <->
  exists properties v,
    response = Normal (JObject properties) /\
    lookup "readOnly" properties = Some v /\
    ToBoolean v = true.
Proof.
  unfold readOnly, appInfo. split.
  - destruct response as [body|x]; cbn; [|discriminate].
    destruct (ToBoolean body) eqn:Hb; [|now rewrite Hb].
    destruct body as [| | | | |elements|properties]; cbn; try discriminate.
    destruct (lookup "readOnly" properties) as [v|] eqn:Hl; cbn;
      [|discriminate].
    intros Hv. now exists properties, v.
  - intros (properties & v & -> & Hl & Hv). cbn. now rewrite Hl.
Qed.

End StoreProperties.
